(** * cbase: bounded formatting, error descriptions and timestamps

    A shallow embedding of [src/src/base.c] (declared in
    [src/include/base.h]) and the properties of its three helpers:
    [print_to_string], [strerror_r_improved] and [humanized_timestamp].
    Of the two builds of [strerror_r_improved] the portability one (lines
    44-51) is embedded; the other (lines 40-42) hands its arguments to the
    GNU [strerror_r] and returns what that returns.

    The helpers are thin wrappers around the C library.  The library calls
    are modelled here from the C and POSIX standards: [vsnprintf] and
    [strftime] in the "C" locale, [strerror_r] in its XSI form.  What only
    the host knows (message table, time zone rules) is a field of
    [Platform]. *)

From Stdlib Require Import Ascii String ZArith List Bool Lia.
Import ListNotations.

Local Open Scope Z_scope.

(** ** Characters, texts and the caller's storage *)

(** A [char] array is a list of characters; [lit] is a C string literal
    without its terminator. *)
Definition text := list ascii.

Definition lit (s : string) : text := list_ascii_of_string s.

Definition NUL : ascii := Ascii.zero.

(** The bytes of the object that [str] points to.  Its length is the real
    size of the object, which the callee cannot see: it only gets [len]. *)
Definition mem := list ascii.

(** The [char *str] argument: the null pointer or the address of the
    caller's storage. *)
Inductive ptr : Type :=
  | NULL
  | Str.

(** A [const char *] result: the argument handed back, or the address of a
    string literal of the program. *)
Inductive cptr : Type :=
  | Ptr (p : ptr)
  | Lit (s : text).

Definition is_null (p : ptr) : bool :=
  match p with NULL => true | Str => false end.

(** ** Outcomes of a call

    A call returns, or stops the process in [abort()] after a failed
    [assert], or runs into undefined behaviour (a null or out-of-bounds
    access, a malformed library call). *)
Inductive outcome (A : Type) : Type :=
  | Ret (a : A)
  | Abort
  | Undefined.

Arguments Ret {A} a.
Arguments Abort {A}.
Arguments Undefined {A}.

Definition bind {A B : Type} (c : outcome A) (k : A -> outcome B) : outcome B :=
  match c with
  | Ret a => k a
  | Abort => Abort
  | Undefined => Undefined
  end.

Declare Scope outcome_scope.
Delimit Scope outcome_scope with outcome.
Notation "x <- c ;; k" := (bind c (fun x => k))
  (at level 61, c at next level, right associativity) : outcome_scope.
Notation "' pat <- c ;; k" := (bind c (fun x => match x with pat => k end))
  (at level 61, pat pattern, c at next level, right associativity) : outcome_scope.
Notation "c ;; k" := (bind c (fun _ => k))
  (at level 61, right associativity) : outcome_scope.

Local Open Scope outcome_scope.

(** ** Memory accesses through [str] *)

Fixpoint update (i : nat) (c : ascii) (m : mem) : mem :=
  match m, i with
  | [], _ => []
  | _ :: m', O => c :: m'
  | x :: m', S i' => x :: update i' c m'
  end.

(** [str[i] = c] *)
Definition store (p : ptr) (i : nat) (c : ascii) (m : mem) : outcome mem :=
  match p with
  | NULL => Undefined
  | Str => if (i <? length m)%nat then Ret (update i c m) else Undefined
  end.

(** [str[i]] *)
Definition load (p : ptr) (i : nat) (m : mem) : outcome ascii :=
  match p with
  | NULL => Undefined
  | Str => match nth_error m i with Some c => Ret c | None => Undefined end
  end.

(** The bytes [bs] replace the first [length bs] bytes of the storage. *)
Definition overwrite (bs : list ascii) (m : mem) : mem :=
  bs ++ skipn (length bs) m.

(** A library routine stores [bs] at [str[0..]].  Storing nothing touches
    nothing, whatever the pointer. *)
Definition store_bytes (p : ptr) (bs : list ascii) (m : mem) : outcome mem :=
  match bs with
  | [] => Ret m
  | _ :: _ =>
      match p with
      | NULL => Undefined
      | Str => if (length bs <=? length m)%nat then Ret (overwrite bs m)
               else Undefined
      end
  end.

(** The C string that starts at the beginning of [m]: the characters before
    the first terminator, if there is one. *)
Fixpoint c_str (m : list ascii) : option text :=
  match m with
  | [] => None
  | c :: m' =>
      if Ascii.eqb c NUL then Some []
      else match c_str m' with
           | Some s => Some (c :: s)
           | None => None
           end
  end.

(** [strlen(str)] *)
Definition strlen (p : ptr) (m : mem) : outcome nat :=
  match p with
  | NULL => Undefined
  | Str => match c_str m with Some s => Ret (length s) | None => Undefined end
  end.

(** The string a [const char *] result designates. *)
Definition string_at (r : cptr) (m : mem) : option text :=
  match r with
  | Ptr NULL => None
  | Ptr Str => c_str m
  | Lit s => Some s
  end.

(** ** C integers *)

Definition INT_MAX : Z := 2147483647.
Definition INT_MIN : Z := -2147483648.

(** [size_t] is 64 bits wide (LP64).  Sizes are natural numbers: the source
    only compares them. *)
Definition SIZE_WIDTH : Z := 64.

(** [(size_t)num] *)
Definition to_size_t (num : Z) : nat := Z.to_nat (num mod 2 ^ SIZE_WIDTH).

(** ** Decimal output *)

Definition digit (d : Z) : ascii := ascii_of_nat (48 + Z.to_nat d).

(** The decimal digits of [n >= 0], most significant first.  The fuel bounds
    the number of digits. *)
Fixpoint digits (fuel : nat) (n : Z) : text :=
  match fuel with
  | O => []
  | S fuel' =>
      if n <? 10 then [digit n]
      else digits fuel' (n / 10) ++ [digit (n mod 10)]
  end.

(** A number has no more decimal digits than binary ones. *)
Definition decimal (n : Z) : text :=
  let a := Z.abs n in
  (if n <? 0 then ["-"%char] else []) ++ digits (S (Z.to_nat (Z.log2 a))) a.

(** ** The formatting engine: [vsnprintf]

    The variadic arguments, by the type the conversion expects. *)
Inductive arg : Type :=
  | AInt (n : Z)          (* an [int] *)
  | AStr (s : text)       (* a [char *] to the string [s] *)
  | AWide (w : Z).        (* a [wint_t] *)

(** What rendering a template with its arguments gives: the whole text, or
    an encoding error after [partial] has been produced, or a call the
    standard leaves undefined (a conversion without its argument, an
    argument of another type, a conversion outside the ones below). *)
Inductive rendering : Type :=
  | Rendered (t : text)
  | EncodingError (partial : text)
  | BadCall.

Definition prepend (pre : text) (r : rendering) : rendering :=
  match r with
  | Rendered t => Rendered (pre ++ t)
  | EncodingError p => EncodingError (pre ++ p)
  | BadCall => BadCall
  end.

Fixpoint until_nul (s : text) : text :=
  match s with
  | [] => []
  | c :: s' => if Ascii.eqb c NUL then [] else c :: until_nul s'
  end.

(** The conversions [%%], [%d], [%c], [%s] and [%lc].  In the "C" locale a
    wide character outside 0..127 has no multibyte form: [%lc] then fails
    with an encoding error and the engine stops. *)
Fixpoint render (fmt : text) (ap : list arg) : rendering :=
  match fmt with
  | [] => Rendered []
  | c :: rest =>
      if negb (Ascii.eqb c "%") then prepend [c] (render rest ap)
      else
        match rest with
        | [] => BadCall
        | d :: rest1 =>
            if Ascii.eqb d "%" then prepend ["%"%char] (render rest1 ap)
            else if Ascii.eqb d "d" then
              match ap with
              | AInt n :: ap' => prepend (decimal n) (render rest1 ap')
              | _ => BadCall
              end
            else if Ascii.eqb d "c" then
              match ap with
              | AInt n :: ap' =>
                  prepend [ascii_of_nat (Z.to_nat (n mod 256))] (render rest1 ap')
              | _ => BadCall
              end
            else if Ascii.eqb d "s" then
              match ap with
              | AStr s :: ap' => prepend (until_nul s) (render rest1 ap')
              | _ => BadCall
              end
            else if Ascii.eqb d "l" then
              match rest1 with
              | e :: rest2 =>
                  if Ascii.eqb e "c" then
                    match ap with
                    | AWide w :: ap' =>
                        if (0 <=? w) && (w <=? 127)
                        then prepend [ascii_of_nat (Z.to_nat w)] (render rest2 ap')
                        else EncodingError []
                    | _ => BadCall
                    end
                  else BadCall
              | [] => BadCall
              end
            else BadCall
        end
  end.

(** What the engine stores for the characters [t] it produced: nothing when
    [len] is 0, else at most [len - 1] of them and the terminator. *)
Definition emitted (len : nat) (t : text) : list ascii :=
  match len with
  | O => []
  | S n => firstn n t ++ [NUL]
  end.

(** [vsnprintf(str, len, fmt, ap)]: the would-be length, or a negative
    value after an encoding error or when the length does not fit an
    [int].  What the array holds after an error is not specified; here the
    engine has stored what it had produced.  A null [fmt] is undefined. *)
Definition vsnprintf (str : ptr) (len : nat) (fmt : option text)
    (ap : list arg) (m : mem) : outcome (Z * mem) :=
  match fmt with
  | None => Undefined
  | Some f =>
      match render f ap with
      | BadCall => Undefined
      | EncodingError partial =>
          m' <- store_bytes str (emitted len partial) m ;; Ret (-1, m')
      | Rendered t =>
          m' <- store_bytes str (emitted len t) m ;;
          if INT_MAX <? Z.of_nat (length t) then Ret (-1, m')
          else Ret (Z.of_nat (length t), m')
      end
  end.

(** ** Calendar time: [struct tm] and [strftime] *)

Record tm : Type := {
  tm_sec : Z;
  tm_min : Z;
  tm_hour : Z;
  tm_mday : Z;
  tm_mon : Z;
  tm_year : Z;   (* years since 1900 *)
  tm_wday : Z;   (* days since Sunday *)
  tm_yday : Z;
  tm_isdst : Z
}.

Definition pad_left (c : ascii) (w : nat) (s : text) : text :=
  repeat c (w - length s) ++ s.

Definition wday_abbr (d : Z) : text :=
  match d with
  | 0 => lit "Sun" | 1 => lit "Mon" | 2 => lit "Tue" | 3 => lit "Wed"
  | 4 => lit "Thu" | 5 => lit "Fri" | 6 => lit "Sat"
  | _ => lit "?"
  end.

Definition mon_abbr (k : Z) : text :=
  match k with
  | 0 => lit "Jan" | 1 => lit "Feb" | 2 => lit "Mar" | 3 => lit "Apr"
  | 4 => lit "May" | 5 => lit "Jun" | 6 => lit "Jul" | 7 => lit "Aug"
  | 8 => lit "Sep" | 9 => lit "Oct" | 10 => lit "Nov" | 11 => lit "Dec"
  | _ => lit "?"
  end.

Definition hms (t : tm) : text :=
  pad_left "0" 2 (decimal (tm_hour t)) ++ lit ":" ++
  pad_left "0" 2 (decimal (tm_min t)) ++ lit ":" ++
  pad_left "0" 2 (decimal (tm_sec t)).

(** [%c] in the "C" locale stands for [%a %b %e %H:%M:%S %Y]. *)
Definition date_and_time (t : tm) : text :=
  wday_abbr (tm_wday t) ++ lit " " ++ mon_abbr (tm_mon t) ++ lit " " ++
  pad_left " " 2 (decimal (tm_mday t)) ++ lit " " ++ hms t ++ lit " " ++
  decimal (tm_year t + 1900).

(** One conversion of [strftime] in the "C" locale. *)
Definition conversion (d : ascii) (t : tm) : option text :=
  if Ascii.eqb d "%" then Some (lit "%")
  else if Ascii.eqb d "a" then Some (wday_abbr (tm_wday t))
  else if Ascii.eqb d "b" then Some (mon_abbr (tm_mon t))
  else if Ascii.eqb d "e" then Some (pad_left " " 2 (decimal (tm_mday t)))
  else if Ascii.eqb d "H" then Some (pad_left "0" 2 (decimal (tm_hour t)))
  else if Ascii.eqb d "M" then Some (pad_left "0" 2 (decimal (tm_min t)))
  else if Ascii.eqb d "S" then Some (pad_left "0" 2 (decimal (tm_sec t)))
  else if Ascii.eqb d "Y" then Some (decimal (tm_year t + 1900))
  else if Ascii.eqb d "T" then Some (hms t)
  else if Ascii.eqb d "c" then Some (date_and_time t)
  else None.

Fixpoint expand (fmt : text) (t : tm) : option text :=
  match fmt with
  | [] => Some []
  | c :: rest =>
      if negb (Ascii.eqb c "%") then option_map (cons c) (expand rest t)
      else
        match rest with
        | [] => None
        | d :: rest1 =>
            match conversion d t, expand rest1 t with
            | Some s, Some r => Some (s ++ r)
            | _, _ => None
            end
        end
  end.

(** [strftime(str, len, fmt, tm)]: when the text and its terminator fit in
    [len] bytes they are stored and the length of the text is returned;
    otherwise the result is 0.  The standard leaves the array
    indeterminate then; here it is left as it was. *)
Definition strftime (str : ptr) (len : nat) (fmt : text) (t : tm) (m : mem)
    : outcome (nat * mem) :=
  match expand fmt t with
  | None => Undefined
  | Some s =>
      if (length s + 1 <=? len)%nat
      then m' <- store_bytes str (s ++ [NUL]) m ;; Ret (length s, m')
      else Ret (O, m)
  end.

(** ** The platform

    The build flag and what only the host knows. *)
Class Platform : Type := {
  (** assertions are compiled out *)
  NDEBUG : bool;
  (** the host's XSI [strerror_r] for a code and a buffer size: its status
      (0 on success, an error number otherwise) and the bytes it stores at
      the start of the buffer *)
  sys_strerror : Z -> nat -> Z * list ascii;
  (** the host's conversion of a [time_t] to local calendar time; [None]
      when it fails and [localtime_r] returns a null pointer *)
  sys_localtime : Z -> option tm
}.

Section Source.

Context {P : Platform}.

(** [assert(cond)]: nothing under [NDEBUG], not even the evaluation of
    [cond]. *)
Definition assert (cond : outcome bool) : outcome unit :=
  if NDEBUG then Ret tt
  else b <- cond ;; if (b : bool) then Ret tt else Abort.

(** [strerror_r(err, str, len)] in its XSI form.  The host stores at most
    [len] bytes. *)
Definition strerror_r (err : Z) (str : ptr) (len : nat) (m : mem)
    : outcome (Z * mem) :=
  let '(rc, bs) := sys_strerror err len in
  m' <- store_bytes str (firstn len bs) m ;; Ret (rc, m').

(** [localtime_r(&t, &tm)] *)
Definition localtime_r (t : Z) : option tm := sys_localtime t.

(** base.c, lines 13-37. *)
Definition print_to_string (str : ptr) (len : nat) (fmt : option text)
    (ap : list arg) (m : mem) : outcome (Z * mem) :=
  assert (Ret (negb (is_null str))) ;;
  assert (Ret (match fmt with Some _ => true | None => false end)) ;;
  '(num, m1) <- vsnprintf str len fmt ap m ;;
  if num <? 0 then Ret (-1, m1)
  else if (len <=? to_size_t num)%nat then
    m2 <- store str 0 NUL m1 ;;
    Ret (-1, m2)
  else
    assert (c <- load str (Z.to_nat num) m1 ;; Ret (Ascii.eqb NUL c)) ;;
    Ret (num, m1).

(** base.c, lines 44-51: the build without [_GNU_SOURCE], or on Apple
    hosts. *)
Definition strerror_r_improved (err : Z) (str : ptr) (len : nat) (m : mem)
    : outcome (cptr * mem) :=
  let unknown := lit "unknown error" in
  '(rc, m1) <- strerror_r err str len m ;;
  '(rc, m2) <-
     (if negb (rc =? 0)
      then print_to_string str len (Some (lit "%s %d")) [AStr unknown; AInt err] m1
      else Ret (rc, m1)) ;;
  Ret (if 0 <=? rc then Ptr str else Lit unknown, m2).

(** base.c, lines 54-73.  [clock] is what [time(NULL)] reads. *)
Definition humanized_timestamp (clock : Z) (str : ptr) (len : nat) (m : mem)
    : outcome (cptr * mem) :=
  let err := lit "error" in
  let t := clock in
  match localtime_r t with
  | None => Ret (Lit err, m)
  | Some ptm =>
      '(bytes, m1) <- strftime str len (lit "%c") ptm m ;;
      if (0 =? bytes)%nat then Ret (Lit err, m1)
      else
        assert (n <- strlen str m1 ;; Ret (n =? bytes)%nat) ;;
        Ret (Ptr str, m1)
  end.

End Source.

(** ** A concrete host: UTC clock, a few Linux error messages

    Used to run the helpers on concrete inputs. *)

Definition EINVAL : Z := 22.
Definition ERANGE : Z := 34.

Definition sys_errlist : list (Z * text) :=
  [(0, lit "Success");
   (1, lit "Operation not permitted");
   (2, lit "No such file or directory");
   (12, lit "Cannot allocate memory");
   (22, lit "Invalid argument");
   (34, lit "Numerical result out of range")].

Definition errlist (err : Z) : option text :=
  option_map snd (find (fun e => fst e =? err) sys_errlist).

(** As much of the message as fits with its terminator.  A code without a
    message is reported as [EINVAL], a message that does not fit as
    [ERANGE]. *)
Definition xsi_strerror (err : Z) (len : nat) : Z * list ascii :=
  let '(msg, known) :=
    match errlist err with
    | Some s => (s, true)
    | None => (lit "Unknown error " ++ decimal err, false)
    end in
  let bs := match len with
            | O => []
            | S n => firstn n msg ++ [NUL]
            end in
  (if negb known then EINVAL
   else if (len <=? length msg)%nat then ERANGE
   else 0, bs).

Definition is_leap (y : Z) : bool :=
  (y mod 4 =? 0) && (negb (y mod 100 =? 0) || (y mod 400 =? 0)).

(** The date of day [doe] of a 400-year era that starts on 1 March: the
    year of the era, the day of that year (from 1 March), the month (1..12)
    and the day of the month. *)
Definition era_date (doe : Z) : Z * Z * Z * Z :=
  let yoe := (doe - doe / 1460 + doe / 36524 - doe / 146096) / 365 in
  let doy := doe - (365 * yoe + yoe / 4 - yoe / 100) in
  let mp := (5 * doy + 2) / 153 in
  let d := doy - (153 * mp + 2) / 5 + 1 in
  let mo := if mp <? 10 then mp + 3 else mp - 9 in
  (yoe, doy, mo, d).

(** Seconds since the epoch to UTC calendar time (proleptic Gregorian
    calendar); fails when the year does not fit the [int] field. *)
Definition gmtime (t : Z) : option tm :=
  let days := t / 86400 in
  let rem := t mod 86400 in
  let z := days + 719468 in
  let era := z / 146097 in
  let doe := z mod 146097 in
  let '(yoe, doy, mo, d) := era_date doe in
  let y := yoe + era * 400 + (if mo <=? 2 then 1 else 0) in
  let yday := if 3 <=? mo then doy + 59 + (if is_leap y then 1 else 0)
              else doy - 306 in
  if (y - 1900 <? INT_MIN) || (INT_MAX <? y - 1900) then None
  else Some {| tm_sec := rem mod 60;
               tm_min := rem mod 3600 / 60;
               tm_hour := rem / 3600;
               tm_mday := d;
               tm_mon := mo - 1;
               tm_year := y - 1900;
               tm_wday := (days + 4) mod 7;
               tm_yday := yday;
               tm_isdst := 0 |}.

(** A debug build and a release build on that host. *)
Definition linux_utc : Platform :=
  {| NDEBUG := false; sys_strerror := xsi_strerror; sys_localtime := gmtime |}.

Definition linux_utc_release : Platform :=
  {| NDEBUG := true; sys_strerror := xsi_strerror; sys_localtime := gmtime |}.

(** ** Predicates used in the statements *)

(** The layout [Www Mmm dd hh:mm:ss yyyy], one class per character.  The
    day of the month is padded with a space ([%e]). *)
Inductive char_class : Type :=
  | Upper | Lower | Digit | DigitOrSpace | Exactly (c : ascii).

Definition in_range (lo hi c : ascii) : bool :=
  (nat_of_ascii lo <=? nat_of_ascii c)%nat && (nat_of_ascii c <=? nat_of_ascii hi)%nat.

Definition in_class (k : char_class) (c : ascii) : bool :=
  match k with
  | Upper => in_range "A" "Z" c
  | Lower => in_range "a" "z" c
  | Digit => in_range "0" "9" c
  | DigitOrSpace => in_range "0" "9" c || Ascii.eqb c " "
  | Exactly x => Ascii.eqb c x
  end.

Fixpoint matches (ks : list char_class) (s : text) : bool :=
  match ks, s with
  | [], [] => true
  | k :: ks', c :: s' => in_class k c && matches ks' s'
  | _, _ => false
  end.

Definition timestamp_layout : list char_class :=
  [Upper; Lower; Lower; Exactly " ";
   Upper; Lower; Lower; Exactly " ";
   DigitOrSpace; Digit; Exactly " ";
   Digit; Digit; Exactly ":"; Digit; Digit; Exactly ":"; Digit; Digit;
   Exactly " ";
   Digit; Digit; Digit; Digit].

(** The fields [%c] prints are in their normal ranges. *)
Definition tm_in_range (t : tm) : Prop :=
  0 <= tm_sec t <= 60 /\ 0 <= tm_min t <= 59 /\ 0 <= tm_hour t <= 23 /\
  1 <= tm_mday t <= 31 /\ 0 <= tm_mon t <= 11 /\ 0 <= tm_wday t <= 6.

Definition four_digit_year (t : tm) : Prop :=
  1000 <= tm_year t + 1900 <= 9999.

(** A successful host call leaves a non-empty string in the buffer. *)
Definition describes_nonempty (P : Platform) : Prop :=
  forall (err : Z) (len : nat) (bs : list ascii),
    sys_strerror err len = (0, bs) ->
    exists s, s <> [] /\ c_str (firstn len bs) = Some s.

(** A second call, on the storage the first one left, returns the same
    value and leaves the storage as it found it. *)
Definition repeatable {A : Type} (f : mem -> outcome (A * mem)) : Prop :=
  forall m r m', f m = Ret (r, m') -> f m' = Ret (r, m').

(** What the storage held before the call has no influence on the value
    returned. *)
Definition content_blind {A : Type} (f : mem -> outcome (A * mem)) : Prop :=
  forall m r m' m0,
    f m = Ret (r, m') -> length m0 = length m ->
    exists m0', f m0 = Ret (r, m0').

(** [p] holds from [lo] for [n] consecutive integers. *)
Fixpoint forall_upto (n : nat) (p : Z -> bool) (lo : Z) : bool :=
  match n with
  | O => true
  | S k => if p lo then forall_upto k p (lo + 1) else false
  end.

(** ** base.h: the macros

    [MIN] and [MAX] are embedded for operands of type [int] and
    [unsigned int] (32 bits each).  The body [_a < _b ? _a : _b] compares
    and selects under the usual arithmetic conversions: when one operand is
    unsigned, both are converted to [unsigned int], and the result has that
    type. *)
Inductive ctype : Type :=
  | TInt
  | TUInt.

Record cval : Type := { c_type : ctype; c_val : Z }.

Definition UINT_MAX : Z := 4294967295.

Definition in_type (t : ctype) (v : Z) : Prop :=
  match t with
  | TInt => INT_MIN <= v <= INT_MAX
  | TUInt => 0 <= v <= UINT_MAX
  end.

Definition common_type (s t : ctype) : ctype :=
  match s, t with
  | TInt, TInt => TInt
  | _, _ => TUInt
  end.

(** Conversion of a value to the common type; to [unsigned int] it is
    reduction modulo [UINT_MAX + 1]. *)
Definition convert (t : ctype) (v : Z) : Z :=
  match t with
  | TInt => v
  | TUInt => v mod (UINT_MAX + 1)
  end.

(** base.h, lines 20-25. *)
Definition MIN (a b : cval) : cval :=
  let _a := a in
  let _b := b in
  let t := common_type (c_type _a) (c_type _b) in
  if convert t (c_val _a) <? convert t (c_val _b)
  then {| c_type := t; c_val := convert t (c_val _a) |}
  else {| c_type := t; c_val := convert t (c_val _b) |}.

(** base.h, lines 38-43. *)
Definition MAX (a b : cval) : cval :=
  let _a := a in
  let _b := b in
  let t := common_type (c_type _a) (c_type _b) in
  if convert t (c_val _a) >? convert t (c_val _b)
  then {| c_type := t; c_val := convert t (c_val _a) |}
  else {| c_type := t; c_val := convert t (c_val _b) |}.

(** Division and remainder of [size_t] values; dividing by zero has no
    value. *)
Definition size_div (a b : Z) : option Z :=
  if b =? 0 then None else Some (a / b).

Definition size_mod (a b : Z) : option Z :=
  if b =? 0 then None else Some (a mod b).

(** [(size_t)(!x)] *)
Definition size_not (x : Z) : Z := if x =? 0 then 1 else 0.

(** base.h, lines 57-61, for an argument of [sizeof(arr)] bytes whose
    element [0[arr]] has [sizeof(0[arr])] bytes. *)
Definition ARRAYSIZE (sizeof_arr sizeof_elem : Z) : option Z :=
  match size_div sizeof_arr sizeof_elem, size_mod sizeof_arr sizeof_elem with
  | Some q, Some r => size_div q (size_not r)
  | _, _ => None
  end.

(** base.h, line 73: [arr] is the address the argument evaluates to; adding
    a count to it advances by that many elements. *)
Definition ARRAYEND (arr sizeof_arr sizeof_elem : Z) : option Z :=
  match ARRAYSIZE sizeof_arr sizeof_elem with
  | Some n => Some (arr + n * sizeof_elem)
  | None => None
  end.

(** No character of the text is a terminator. *)
Definition nul_free (s : text) : bool :=
  forallb (fun c => negb (Ascii.eqb c NUL)) s.

(** * Properties *)

(** ** Storage *)

Lemma length_update (i : nat) (c : ascii) (m : mem) :
  length (update i c m) = length m.
Proof.
  revert i; induction m as [|x m IH]; intros [|i]; simpl; auto.
Qed.

Lemma update_head (c : ascii) (m : mem) :
  m <> [] -> update 0 c m = overwrite [c] m.
Proof.
  destruct m as [|x m]; [congruence | reflexivity].
Qed.

Lemma length_overwrite (bs : list ascii) (m : mem) :
  (length bs <= length m)%nat -> length (overwrite bs m) = length m.
Proof.
  intros H. unfold overwrite. rewrite length_app, length_skipn. lia.
Qed.

(** Two stores at the start of the buffer amount to one. *)
Lemma overwrite_overwrite (a b : list ascii) (m : mem) :
  overwrite a (overwrite b m) = overwrite (a ++ skipn (length a) b) m.
Proof.
  unfold overwrite.
  rewrite skipn_app, skipn_skipn, <- app_assoc. f_equal. f_equal.
  rewrite length_app, length_skipn. f_equal. lia.
Qed.

Lemma overwrite_idem (c : list ascii) (m : mem) :
  overwrite c (overwrite c m) = overwrite c m.
Proof.
  rewrite overwrite_overwrite, skipn_all, app_nil_r. reflexivity.
Qed.

Lemma overwrite_nil (m : mem) : overwrite [] m = m.
Proof. reflexivity. Qed.

Lemma store_bytes_Ret (p : ptr) (bs : list ascii) (m m' : mem) :
  store_bytes p bs m = Ret m' ->
  m' = overwrite bs m /\ (length bs <= length m)%nat /\ (bs <> [] -> p = Str).
Proof.
  unfold store_bytes. destruct bs as [|b bs].
  - intros [= <-]. simpl. repeat split; [lia | congruence].
  - destruct p; [discriminate|].
    destruct (Nat.leb_spec (length (b :: bs)) (length m)); [|discriminate].
    intros [= <-]. auto.
Qed.

Lemma store_bytes_fits (bs : list ascii) (m : mem) :
  (length bs <= length m)%nat -> store_bytes Str bs m = Ret (overwrite bs m).
Proof.
  intros H. unfold store_bytes. destruct bs as [|b bs]; [reflexivity|].
  destruct (Nat.leb_spec (length (b :: bs)) (length m)); [reflexivity | lia].
Qed.

Lemma store_bytes_same_size (p : ptr) (bs : list ascii) (m m' m0 : mem) :
  store_bytes p bs m = Ret m' -> length m0 = length m ->
  store_bytes p bs m0 = Ret (overwrite bs m0).
Proof.
  intros H E. apply store_bytes_Ret in H as (_ & Hl & Hp).
  destruct bs as [|b bs]; [reflexivity|].
  rewrite Hp by discriminate. apply store_bytes_fits. lia.
Qed.

(** Reading a string back: what precedes the first terminator. *)
Lemma c_str_terminated (s rest : list ascii) :
  c_str (s ++ NUL :: rest) = Some (until_nul s).
Proof.
  induction s as [|c s IH]; simpl; [reflexivity|].
  destruct (Ascii.eqb c NUL); [reflexivity|]. rewrite IH. reflexivity.
Qed.

Lemma c_str_app (a b : list ascii) (s : text) :
  c_str a = Some s -> c_str (a ++ b) = Some s.
Proof.
  revert s; induction a as [|c a IH]; simpl; [discriminate|]. intros s.
  destruct (Ascii.eqb c NUL); [auto|].
  destruct (c_str a) as [s'|]; [|discriminate].
  intros [= <-]. rewrite (IH s' eq_refl). reflexivity.
Qed.

Lemma length_emitted (len : nat) (t : text) :
  (length (emitted len t) <= len)%nat.
Proof.
  destruct len as [|n]; simpl; [lia|].
  rewrite length_app, length_firstn. simpl. lia.
Qed.

Lemma emitted_fits (len : nat) (t : text) :
  (length t < len)%nat -> emitted len t = t ++ [NUL].
Proof.
  destruct len as [|n]; simpl; [lia|]. intros H.
  rewrite firstn_all2 by lia. reflexivity.
Qed.

Lemma to_size_t_small (num : Z) :
  0 <= num <= INT_MAX -> to_size_t num = Z.to_nat num.
Proof.
  intros H. unfold to_size_t, SIZE_WIDTH. rewrite Z.mod_small; [reflexivity|].
  unfold INT_MAX in H. lia.
Qed.

(** ** The engine *)

(** A call of the engine that returns has stored [emitted len t] for the
    text [t] it produced; the outcome depends on the size of the storage,
    not on what it holds. *)
Lemma vsnprintf_Ret (str : ptr) (len : nat) (fmt : option text)
    (ap : list arg) (m : mem) (num : Z) (m1 : mem) :
  vsnprintf str len fmt ap m = Ret (num, m1) ->
  exists f t,
    fmt = Some f /\
    m1 = overwrite (emitted len t) m /\
    (length (emitted len t) <= length m)%nat /\
    (emitted len t <> [] -> str = Str) /\
    (forall m0, length m0 = length m ->
       vsnprintf str len fmt ap m0 = Ret (num, overwrite (emitted len t) m0)) /\
    ((render f ap = Rendered t /\ Z.of_nat (length t) <= INT_MAX /\
      num = Z.of_nat (length t)) \/
     (render f ap = Rendered t /\ INT_MAX < Z.of_nat (length t) /\ num = -1) \/
     (render f ap = EncodingError t /\ num = -1)).
Proof.
  unfold vsnprintf. destruct fmt as [f|]; [|discriminate].
  destruct (render f ap) as [t|t|] eqn:R; [| |discriminate];
    destruct (store_bytes str (emitted len t) m) as [m'| |] eqn:S;
    simpl; try discriminate; intros H; exists f, t;
    pose proof (store_bytes_Ret _ _ _ _ S) as (-> & Hl & Hp).
  - assert (Hsame : forall m0, length m0 = length m ->
              (m' <- store_bytes str (emitted len t) m0 ;;
               if INT_MAX <? Z.of_nat (length t) then Ret (-1, m')
               else Ret (Z.of_nat (length t), m')) =
              Ret (num, overwrite (emitted len t) m0)).
    { intros m0 E. rewrite (store_bytes_same_size _ _ _ _ m0 S E). simpl.
      destruct (INT_MAX <? Z.of_nat (length t)); injection H as <- _; reflexivity. }
    destruct (Z.ltb_spec INT_MAX (Z.of_nat (length t))); injection H as <- <-;
      do 5 (split; [solve [auto]|]); auto.
  - injection H as <- <-. do 4 (split; [solve [auto]|]). split; [|auto].
    intros m0 E; rewrite (store_bytes_same_size _ _ _ _ m0 S E); reflexivity.
Qed.

Section Wrapper.

Context {P : Platform}.

Lemma assert_holds (b : bool) : b = true -> assert (Ret b) = Ret tt.
Proof. intros ->. unfold assert. destruct NDEBUG; reflexivity. Qed.

Lemma assert_pure_Ret (b : bool) (k : outcome (Z * mem)) (x : Z * mem) :
  (assert (Ret b) ;; k) = Ret x -> k = Ret x.
Proof.
  unfold assert. destruct NDEBUG; simpl; [auto|]. destruct b; simpl; [auto|discriminate].
Qed.

(** The buffer is not null and the template renders to [t], which fits an
    [int]: the call goes through the engine and on to the comparison with
    [len]. *)
Lemma print_to_string_rendered (len : nat) (f : text) (ap : list arg)
    (t : text) (m : mem) :
  render f ap = Rendered t ->
  Z.of_nat (length t) <= INT_MAX ->
  (length (emitted len t) <= length m)%nat ->
  print_to_string Str len (Some f) ap m =
    let m1 := overwrite (emitted len t) m in
    if (len <=? length t)%nat
    then m2 <- store Str 0 NUL m1 ;; Ret (-1, m2)
    else assert (c <- load Str (length t) m1 ;; Ret (Ascii.eqb NUL c)) ;;
         Ret (Z.of_nat (length t), m1).
Proof.
  intros R Hi Hl. unfold print_to_string.
  rewrite !assert_holds by reflexivity.
  unfold vsnprintf. rewrite R, (store_bytes_fits _ _ Hl). cbn [bind].
  destruct (Z.ltb_spec INT_MAX (Z.of_nat (length t))); [lia|].
  cbn [bind].
  destruct (Z.ltb_spec (Z.of_nat (length t)) 0); [lia|].
  rewrite to_size_t_small by lia. rewrite Nat2Z.id. reflexivity.
Qed.

(** The terminator the engine stored is where line 35 looks for it. *)
Lemma load_terminator (t : text) (m : mem) :
  (length t < length m)%nat ->
  load Str (length t) (overwrite (t ++ [NUL]) m) = Ret NUL.
Proof.
  intros H. unfold load, overwrite.
  rewrite <- app_assoc. rewrite nth_error_app2 by lia.
  rewrite Nat.sub_diag. reflexivity.
Qed.

Lemma assert_terminator (t : text) (m : mem) :
  (length t < length m)%nat ->
  assert (c <- load Str (length t) (overwrite (t ++ [NUL]) m) ;;
          Ret (Ascii.eqb NUL c)) = Ret tt.
Proof.
  intros H. unfold assert. rewrite load_terminator by assumption.
  destruct NDEBUG; reflexivity.
Qed.

Lemma store_head (m : mem) :
  m <> [] -> store Str 0 NUL m = Ret (overwrite [NUL] m).
Proof.
  intros H. unfold store. destruct m as [|x m]; [congruence|]. reflexivity.
Qed.

Lemma store_head_Ret (str : ptr) (m m2 : mem) :
  store str 0 NUL m = Ret m2 -> str = Str /\ m <> [] /\ m2 = overwrite [NUL] m.
Proof.
  unfold store. destruct str; [discriminate|].
  destruct m as [|x m]; [discriminate|]. intros [= <-].
  repeat split. discriminate.
Qed.

(** What a call that returns has done to the storage is one store at its
    start, and the same call on any storage of that size does the same. *)
Lemma print_to_string_Ret (str : ptr) (len : nat) (fmt : option text)
    (ap : list arg) (m : mem) (r : Z) (m' : mem) :
  print_to_string str len fmt ap m = Ret (r, m') ->
  exists c,
    m' = overwrite c m /\ (length c <= length m)%nat /\
    (forall m0, length m0 = length m ->
       print_to_string str len fmt ap m0 = Ret (r, overwrite c m0)).
Proof.
  unfold print_to_string.
  destruct (assert (Ret (negb (is_null str)))) as [[]| |] eqn:A1; try discriminate.
  destruct (assert (Ret match fmt with Some _ => true | None => false end))
    as [[]| |] eqn:A2; try discriminate.
  cbn [bind].
  destruct (vsnprintf str len fmt ap m) as [[num m1]| |] eqn:V; try discriminate.
  cbn [bind].
  apply vsnprintf_Ret in V as (f & t & -> & -> & Hl & Hp & Hsame & Hcase).
  pose proof (length_emitted len t) as Hle.
  destruct (Z.ltb_spec num 0) as [Hneg|Hpos].
  - intros [= <- <-]. exists (emitted len t). repeat split; auto.
    intros m0 E. rewrite (Hsame m0 E). cbn [bind].
    destruct (Z.ltb_spec num 0); [reflexivity|lia].
  - destruct Hcase as [(R & Hi & ->)|[(_ & _ & ->)|(_ & ->)]]; try lia.
    rewrite to_size_t_small by lia. rewrite Nat2Z.id.
    destruct (Nat.leb_spec len (length t)) as [Htr|Hfit].
    + destruct (store str 0 NUL (overwrite (emitted len t) m)) as [m2| |] eqn:S;
        try discriminate.
      cbn [bind]. intros [= <- <-].
      apply store_head_Ret in S as (-> & Hne & ->).
      rewrite overwrite_overwrite.
      assert (length (overwrite (emitted len t) m) = length m)
        by (apply length_overwrite; assumption).
      assert (0 < length m)%nat.
      { destruct (overwrite (emitted len t) m); [congruence|]. simpl in *; lia. }
      exists ([NUL] ++ skipn (length [NUL]) (emitted len t)).
      rewrite length_app, length_skipn. simpl length.
      repeat split; try lia.
      intros m0 E. rewrite (Hsame m0 E). cbn [bind].
      destruct (Z.ltb_spec (Z.of_nat (length t)) 0); [lia|].
      rewrite to_size_t_small by lia. rewrite Nat2Z.id.
      destruct (Nat.leb_spec len (length t)); [|lia].
      rewrite store_head.
      * cbn [bind]. rewrite overwrite_overwrite. reflexivity.
      * intros E0. apply (f_equal (@length _)) in E0.
        rewrite length_overwrite in E0 by lia. simpl in E0. lia.
    + rewrite emitted_fits in * by assumption.
      rewrite length_app in Hl. simpl in Hl.
      assert (str = Str) as -> by (apply Hp; destruct t; discriminate).
      rewrite assert_terminator by lia. cbn [bind]. intros [= <- <-].
      exists (t ++ [NUL]). rewrite length_app. simpl length.
      repeat split; try lia.
      intros m0 E. rewrite (Hsame m0 E). cbn [bind].
      destruct (Z.ltb_spec (Z.of_nat (length t)) 0); [lia|].
      rewrite to_size_t_small by lia. rewrite Nat2Z.id.
      destruct (Nat.leb_spec len (length t)); [lia|].
      rewrite assert_terminator by lia. reflexivity.
Qed.

(** ** [print_to_string]: truncation, success, engine errors *)

(** The text does not fit: the terminator goes over what the engine
    stored. *)
Lemma print_to_string_cancels (len : nat) (f : text) (ap : list arg)
    (t : text) (m : mem) :
  render f ap = Rendered t ->
  Z.of_nat (length t) <= INT_MAX ->
  (len <= length t)%nat ->
  (len <= length m)%nat ->
  m <> [] ->
  print_to_string Str len (Some f) ap m =
    Ret (-1, overwrite [NUL] (overwrite (emitted len t) m)).
Proof.
  intros R Hi Htr Hlen Hne.
  pose proof (length_emitted len t) as He.
  rewrite (print_to_string_rendered _ _ _ _ _ R Hi) by lia. cbn zeta.
  destruct (Nat.leb_spec len (length t)); [|lia].
  rewrite store_head; [reflexivity|].
  intros E. apply (f_equal (@length _)) in E.
  rewrite length_overwrite in E by lia.
  destruct m; [congruence|discriminate].
Qed.

(** The text fits: it is stored with its terminator. *)
Lemma print_to_string_stores (len : nat) (f : text) (ap : list arg)
    (t : text) (m : mem) :
  render f ap = Rendered t ->
  Z.of_nat (length t) <= INT_MAX ->
  (length t < len)%nat ->
  (len <= length m)%nat ->
  print_to_string Str len (Some f) ap m =
    Ret (Z.of_nat (length t), t ++ NUL :: skipn (length t + 1) m).
Proof.
  intros R Hi Hfit Hlen.
  rewrite (print_to_string_rendered _ _ _ _ _ R Hi)
    by (pose proof (length_emitted len t); lia).
  cbn zeta. destruct (Nat.leb_spec len (length t)); [lia|].
  rewrite emitted_fits by assumption.
  rewrite assert_terminator by lia. cbn [bind].
  unfold overwrite. rewrite <- app_assoc, length_app. reflexivity.
Qed.

(** C1.  The template renders to a text of length [L] (one the engine can
    report: [L <= INT_MAX]) with [L >= len], and [str] points to storage of
    at least [len] bytes that has a first byte.  Then [print_to_string]
    returns -1 and [str[0]] is the terminator: the buffer holds the empty
    string, whatever the engine had stored. *)
Theorem print_to_string_truncation (len : nat) (f : text) (ap : list arg)
    (t : text) (m : mem) :
  render f ap = Rendered t ->
  Z.of_nat (length t) <= INT_MAX ->
  (len <= length t)%nat ->
  (len <= length m)%nat ->
  m <> [] ->
  exists m',
    print_to_string Str len (Some f) ap m = Ret (-1, m') /\
    nth_error m' 0 = Some NUL /\
    c_str m' = Some [] /\
    length m' = length m.
Proof.
  intros R Hi Htr Hlen Hne.
  rewrite (print_to_string_cancels _ _ _ _ _ R Hi Htr Hlen Hne).
  eexists. split; [reflexivity|]. repeat split.
  pose proof (length_emitted len t).
  assert (0 < length m)%nat by (destruct m; [congruence|simpl; lia]).
  rewrite !length_overwrite; rewrite ?length_overwrite; simpl; lia.
Qed.

(** C2.  For [len > 0] and a template that renders to a text of length
    [L < len] (with [L <= INT_MAX], in storage of at least [len] bytes),
    [print_to_string] returns [L] and the buffer starts with the text and
    its terminator; the bytes after them are untouched.  With a buffer of 6
    bytes, ["%d"] and 12345 give 5 and ["12345"]; with a buffer of 5 bytes
    they give -1 and the empty string. *)
Theorem print_to_string_fits :
  (forall (len : nat) (f : text) (ap : list arg) (t : text) (m : mem),
     (0 < len)%nat ->
     render f ap = Rendered t ->
     Z.of_nat (length t) <= INT_MAX ->
     (length t < len)%nat ->
     (len <= length m)%nat ->
     print_to_string Str len (Some f) ap m =
       Ret (Z.of_nat (length t), t ++ NUL :: skipn (length t + 1) m)) /\
  (forall m : mem, length m = 6%nat ->
     print_to_string Str 6 (Some (lit "%d")) [AInt 12345] m =
       Ret (5, lit "12345" ++ [NUL])) /\
  (forall m : mem, length m = 5%nat ->
     exists m',
       print_to_string Str 5 (Some (lit "%d")) [AInt 12345] m = Ret (-1, m') /\
       c_str m' = Some (lit "")).
Proof.
  split; [intros; apply print_to_string_stores; assumption|]. split.
  - intros m Hm.
    rewrite (print_to_string_stores 6%nat _ _ (lit "12345") m)
      by (simpl; unfold INT_MAX; lia || reflexivity).
    rewrite skipn_all2 by (simpl; lia). reflexivity.
  - intros m Hm.
    rewrite (print_to_string_cancels 5%nat _ _ (lit "12345") m);
      try reflexivity; try (simpl; unfold INT_MAX; lia).
    + eexists. split; reflexivity.
    + destruct m; [discriminate|congruence].
Qed.

(** C3.  With [len = 0] the engine stores nothing, but line 32 then writes
    the terminator to [str[0]]: one byte of a buffer whose capacity is 0 is
    overwritten; storage of no bytes is written out of bounds; and where
    assertions are compiled out a null [str] is dereferenced. *)
Theorem print_to_string_zero_capacity_writes :
  @print_to_string linux_utc Str 0 (Some (lit "%d")) [AInt 12345] (lit "X") =
    Ret (-1, [NUL]) /\
  @print_to_string linux_utc Str 0 (Some (lit "%d")) [AInt 12345] [] = Undefined /\
  @print_to_string linux_utc_release NULL 0 (Some (lit "%d")) [AInt 12345] [] =
    Undefined /\
  vsnprintf NULL 0 (Some (lit "%d")) [AInt 12345] [] = Ret (5, []).
Proof. repeat split. Qed.

(** C4.  When the engine reports a negative length, [print_to_string]
    returns -1 and the storage is exactly as the engine left it.  (In a
    debug build a null [str] stops at line 14, before the engine is
    called.) *)
Theorem print_to_string_engine_error (str : ptr) (len : nat)
    (fmt : option text) (ap : list arg) (m : mem) (num : Z) (m1 : mem) :
  (NDEBUG = false -> str <> NULL) ->
  vsnprintf str len fmt ap m = Ret (num, m1) ->
  num < 0 ->
  print_to_string str len fmt ap m = Ret (-1, m1).
Proof.
  intros Hs V Hn. unfold print_to_string.
  assert (A1 : assert (Ret (negb (is_null str))) = Ret tt).
  { unfold assert. destruct NDEBUG; [reflexivity|].
    destruct str; [exfalso; apply Hs; reflexivity | reflexivity]. }
  rewrite A1.
  rewrite assert_holds by (destruct fmt; [reflexivity|discriminate]).
  cbn [bind]. rewrite V. cbn [bind].
  destruct (Z.ltb_spec num 0); [reflexivity|lia].
Qed.

(** C9, amended.  With [len = 0] a call that returns returns -1.  When the
    engine produces a text (of a length it can report) and the buffer has a
    first byte, that byte becomes the terminator and nothing else changes;
    when the engine reports an encoding error nothing is written. *)
Theorem print_to_string_zero_capacity :
  (forall str fmt ap m r m',
     print_to_string str 0 fmt ap m = Ret (r, m') -> r = -1) /\
  (forall f ap t m,
     render f ap = Rendered t -> Z.of_nat (length t) <= INT_MAX -> m <> [] ->
     print_to_string Str 0 (Some f) ap m = Ret (-1, update 0 NUL m) /\
     nth_error (update 0 NUL m) 0 = Some NUL) /\
  (forall f ap p m,
     render f ap = EncodingError p ->
     print_to_string Str 0 (Some f) ap m = Ret (-1, m)).
Proof.
  split; [|split].
  - intros str fmt ap m r m'. unfold print_to_string. intros H.
    do 2 apply assert_pure_Ret in H.
    destruct (vsnprintf str 0 fmt ap m) as [[num m1]| |]; try discriminate.
    cbn [bind] in H. destruct (num <? 0); [congruence|].
    cbn [Nat.leb] in H.
    destruct (store str 0 NUL m1); try discriminate. cbn [bind] in H. congruence.
  - intros f ap t m R Hi Hne.
    rewrite (print_to_string_rendered _ _ _ _ _ R Hi) by (simpl; lia).
    cbn. destruct m; [congruence|]. split; reflexivity.
  - intros f ap p m R. unfold print_to_string.
    rewrite !assert_holds by reflexivity. unfold vsnprintf. rewrite R.
    reflexivity.
Qed.

End Wrapper.

(** C2 at work: the first scenario of the specification, run in a debug
    build. *)
Lemma print_to_string_fits_witness :
  @print_to_string linux_utc Str 6 (Some (lit "%d")) [AInt 12345] (lit "XXXXXX") =
    Ret (5, lit "12345" ++ [NUL]).
Proof.
  rewrite (proj1 (@print_to_string_fits linux_utc) 6%nat (lit "%d") [AInt 12345]
             (lit "12345") (lit "XXXXXX")).
  - reflexivity.
  - simpl; lia.
  - reflexivity.
  - vm_compute; discriminate.
  - simpl; lia.
  - simpl; lia.
Defined.

Lemma print_to_string_truncation_witness :
  exists m',
    @print_to_string linux_utc Str 5 (Some (lit "%d")) [AInt 12345] (lit "XXXXX") =
      Ret (-1, m') /\
    nth_error m' 0 = Some NUL /\ c_str m' = Some [] /\ length m' = 5%nat.
Proof.
  apply (@print_to_string_truncation linux_utc 5 (lit "%d") [AInt 12345]
           (lit "12345") (lit "XXXXX")).
  - reflexivity.
  - vm_compute; discriminate.
  - simpl; lia.
  - simpl; lia.
  - discriminate.
Defined.

(** C4 at work: an unencodable wide character after two ordinary ones. *)
Lemma print_to_string_engine_error_witness :
  @print_to_string linux_utc Str 8 (Some (lit "ab%lc")) [AWide 8364] (lit "XXXXXXXX") =
    Ret (-1, lit "ab" ++ NUL :: lit "XXXXX").
Proof.
  apply (@print_to_string_engine_error linux_utc Str 8 (Some (lit "ab%lc"))
           [AWide 8364] (lit "XXXXXXXX") (-1)).
  - intros _; discriminate.
  - reflexivity.
  - lia.
Defined.

(** C9 at work: the terminator lands in a buffer whose capacity is 0. *)
Lemma print_to_string_zero_capacity_witness :
  @print_to_string linux_utc Str 0 (Some (lit "%d")) [AInt 12345] (lit "X") =
    Ret (-1, update 0 NUL (lit "X")) /\
  nth_error (update 0 NUL (lit "X")) 0 = Some NUL.
Proof.
  apply (proj1 (proj2 (@print_to_string_zero_capacity linux_utc)) (lit "%d")
           [AInt 12345] (lit "12345") (lit "X")).
  - reflexivity.
  - vm_compute; discriminate.
  - discriminate.
Defined.

(** C9 as stated fails: on an encoding error nothing is written to
    [str[0]]. *)
Lemma print_to_string_zero_capacity_counterexample :
  ~ (exists m',
       @print_to_string linux_utc Str 0 (Some (lit "%lc")) [AWide 8364] (lit "X") =
         Ret (-1, m') /\
       nth_error m' 0 = Some NUL).
Proof.
  intros (m' & E & H). vm_compute in E. injection E as <-. discriminate.
Qed.

(** ** Decimal output *)

Lemma length_digits (fuel : nat) (n : Z) : (length (digits fuel n) <= fuel)%nat.
Proof.
  revert n; induction fuel as [|fuel IH]; intros n; simpl; [lia|].
  destruct (n <? 10); simpl; [lia|].
  rewrite length_app. simpl. specialize (IH (n / 10)). lia.
Qed.

(** An [int] prints in few characters. *)
Lemma length_decimal_int (n : Z) :
  INT_MIN <= n <= INT_MAX -> (length (decimal n) <= 33)%nat.
Proof.
  unfold INT_MIN, INT_MAX. intros H. unfold decimal.
  rewrite length_app.
  pose proof (length_digits (S (Z.to_nat (Z.log2 (Z.abs n)))) (Z.abs n)).
  assert (Z.log2 (Z.abs n) <= 31).
  { change 31 with (Z.log2 (2 ^ 31)). apply Z.log2_le_mono. lia. }
  pose proof (Z.log2_nonneg (Z.abs n)).
  set (d := digits _ _) in *.
  destruct (n <? 0); simpl length; lia.
Qed.

(** ** [strerror_r_improved] *)

Section Describe.

Context {P : Platform}.

Lemma strerror_r_Ret (err : Z) (str : ptr) (len : nat) (m : mem) (rc : Z)
    (m1 : mem) :
  strerror_r err str len m = Ret (rc, m1) ->
  exists bs,
    sys_strerror err len = (rc, bs) /\
    m1 = overwrite (firstn len bs) m /\
    (length (firstn len bs) <= length m)%nat /\
    (firstn len bs <> [] -> str = Str) /\
    (forall m0, length m0 = length m ->
       strerror_r err str len m0 = Ret (rc, overwrite (firstn len bs) m0)).
Proof.
  unfold strerror_r. destruct (sys_strerror err len) as [rc' bs].
  destruct (store_bytes str (firstn len bs) m) as [m'| |] eqn:S; try discriminate.
  cbn [bind]. intros [= -> ->]. exists bs.
  pose proof (store_bytes_Ret _ _ _ _ S) as (-> & Hl & Hp).
  repeat split; auto.
  intros m0 E. rewrite (store_bytes_same_size _ _ _ _ m0 S E). reflexivity.
Qed.

Lemma strerror_r_valid (err : Z) (len : nat) (m : mem) :
  (len <= length m)%nat ->
  strerror_r err Str len m =
    Ret (fst (sys_strerror err len),
         overwrite (firstn len (snd (sys_strerror err len))) m).
Proof.
  intros H. unfold strerror_r. destruct (sys_strerror err len) as [rc bs].
  rewrite store_bytes_fits; [reflexivity|].
  rewrite length_firstn. lia.
Qed.

(** The synthetic message. *)
Lemma render_unknown (err : Z) :
  render (lit "%s %d") [AStr (lit "unknown error"); AInt err] =
    Rendered (lit "unknown error " ++ decimal err).
Proof. cbn. rewrite app_nil_r. reflexivity. Qed.

(** The synthesis returns on a buffer with a first byte and at least [len]
    bytes of storage. *)
Lemma synthesis_returns (err : Z) (len : nat) (m : mem) :
  (len <= length m)%nat -> m <> [] ->
  exists n m2,
    print_to_string Str len (Some (lit "%s %d"))
      [AStr (lit "unknown error"); AInt err] m = Ret (n, m2).
Proof.
  intros Hlen Hne.
  unfold print_to_string. rewrite !assert_holds by reflexivity. cbn [bind].
  unfold vsnprintf. rewrite render_unknown.
  set (t := lit "unknown error " ++ decimal err).
  pose proof (length_emitted len t).
  rewrite store_bytes_fits by lia. cbn [bind].
  set (m2 := overwrite (emitted len t) m).
  assert (Hm2 : length m2 = length m) by (unfold m2; rewrite length_overwrite; lia).
  destruct (Z.ltb_spec INT_MAX (Z.of_nat (length t))); cbn [bind].
  - cbn. eauto.
  - destruct (Z.ltb_spec (Z.of_nat (length t)) 0); [lia|].
    rewrite to_size_t_small by lia. rewrite Nat2Z.id.
    destruct (Nat.leb_spec len (length t)).
    + rewrite store_head; [cbn; eauto|].
      intros E. rewrite E in Hm2. destruct m; [congruence|discriminate].
    + unfold m2. rewrite emitted_fits by assumption.
      rewrite assert_terminator by lia. cbn [bind]. eauto.
Qed.

(** A call on such a buffer returns. *)
Lemma strerror_r_improved_returns (err : Z) (len : nat) (m : mem) :
  (len <= length m)%nat -> m <> [] ->
  exists r m', strerror_r_improved err Str len m = Ret (r, m').
Proof.
  intros Hlen Hne. unfold strerror_r_improved.
  rewrite strerror_r_valid by assumption. cbn [bind].
  destruct (sys_strerror err len) as [rc bs]. cbn [fst snd].
  destruct (Z.eqb_spec rc 0) as [->|Hrc]; cbn [negb bind]; [eauto|].
  destruct (synthesis_returns err len (overwrite (firstn len bs) m))
    as (n & m2 & ->).
  - rewrite length_overwrite; rewrite ?length_firstn; lia.
  - intros E. apply (f_equal (@length _)) in E.
    rewrite length_overwrite in E by (rewrite length_firstn; lia).
    destruct m; [congruence|discriminate].
  - cbn [bind]. eauto.
Qed.

(** C5.  After the host call, [strerror_r_improved] returns [str] when the
    host reported success, or when it did not and the synthesis of
    ["unknown error <code>"] returned a length; it returns the literal
    ["unknown error"] when the synthesis returned -1, and in no other
    case.  On a buffer with a first byte and at least [len] bytes of
    storage the host call and the synthesis do return. *)
Theorem strerror_r_improved_pointer :
  (forall (err : Z) (str : ptr) (len : nat) (m : mem) (rc : Z) (m1 : mem),
     strerror_r err str len m = Ret (rc, m1) ->
     let synthesis :=
       print_to_string str len (Some (lit "%s %d"))
         [AStr (lit "unknown error"); AInt err] m1 in
     (rc = 0 -> strerror_r_improved err str len m = Ret (Ptr str, m1)) /\
     (forall n m2, rc <> 0 -> synthesis = Ret (n, m2) -> 0 <= n ->
        strerror_r_improved err str len m = Ret (Ptr str, m2)) /\
     (forall n m2, rc <> 0 -> synthesis = Ret (n, m2) -> n < 0 ->
        strerror_r_improved err str len m =
          Ret (Lit (lit "unknown error"), m2)) /\
     (forall m', strerror_r_improved err str len m =
                   Ret (Lit (lit "unknown error"), m') ->
        rc <> 0 /\ exists n, n < 0 /\ synthesis = Ret (n, m'))) /\
  (forall (err : Z) (len : nat) (m : mem),
     (len <= length m)%nat -> m <> [] ->
     exists rc m1,
       strerror_r err Str len m = Ret (rc, m1) /\
       exists n m2,
         print_to_string Str len (Some (lit "%s %d"))
           [AStr (lit "unknown error"); AInt err] m1 = Ret (n, m2)).
Proof.
  split.
  - intros err str len m rc m1 H synthesis.
    unfold strerror_r_improved. rewrite H. cbn [bind].
    repeat split.
    + intros ->. reflexivity.
    + intros n m2 Hrc S Hn. destruct (Z.eqb_spec rc 0); [contradiction|].
      cbn [negb]. fold synthesis. rewrite S. cbn [bind].
      destruct (Z.leb_spec 0 n); [reflexivity|lia].
    + intros n m2 Hrc S Hn. destruct (Z.eqb_spec rc 0); [contradiction|].
      cbn [negb]. fold synthesis. rewrite S. cbn [bind].
      destruct (Z.leb_spec 0 n); [lia|reflexivity].
    + destruct (Z.eqb_spec rc 0) as [->|Hrc]; [discriminate|assumption].
    + revert H0. destruct (Z.eqb_spec rc 0) as [->|Hrc]; [discriminate|].
      cbn [negb]. fold synthesis.
      destruct synthesis as [[n m2]| |]; try discriminate. cbn [bind].
      destruct (Z.leb_spec 0 n); [discriminate|]. intros [= <-].
      exists n. split; [assumption|reflexivity].
  - intros err len m Hlen Hne. rewrite strerror_r_valid by assumption.
    eexists _, _. split; [reflexivity|].
    apply synthesis_returns.
    + rewrite length_overwrite; rewrite ?length_firstn; lia.
    + intros E. apply (f_equal (@length _)) in E.
      rewrite length_overwrite in E by (rewrite length_firstn; lia).
      destruct m; [congruence|discriminate].
Qed.

(** C10.  In the portability build a call that returns does not return a
    null pointer (for a null [str] this rests on the host reporting success
    only when it left a string in the buffer): the result is [str] or the
    literal ["unknown error"]; and a call on a buffer with a first byte and
    at least [len] bytes of storage does return. *)
Theorem strerror_r_improved_not_null :
  (forall err str len m r m',
     (str = NULL -> describes_nonempty P) ->
     strerror_r_improved err str len m = Ret (r, m') ->
     r <> Ptr NULL /\ (r = Ptr str \/ r = Lit (lit "unknown error"))) /\
  (forall err len m,
     (len <= length m)%nat -> m <> [] ->
     exists r m', strerror_r_improved err Str len m = Ret (r, m') /\
                  r <> Ptr NULL).
Proof.
  assert (G : forall err str len m r m',
     strerror_r_improved err str len m = Ret (r, m') ->
     r = Ptr str \/ r = Lit (lit "unknown error")).
  { intros err str len m r m'. unfold strerror_r_improved.
    destruct (strerror_r err str len m) as [[rc m1]| |]; try discriminate.
    cbn [bind].
    destruct (if negb (rc =? 0) then _ else _) as [[rc' m2]| |]; try discriminate.
    cbn [bind]. destruct (0 <=? rc'); intros [= <- _]; auto. }
  split.
  - intros err str len m r m' Hhost H. split; [|eapply G; eassumption].
    destruct str.
    + specialize (Hhost eq_refl). intros ->.
      unfold strerror_r_improved in H.
      destruct (strerror_r err NULL len m) as [[rc m1]| |] eqn:S; try discriminate.
      cbn [bind] in H.
      apply strerror_r_Ret in S as (bs & Hs & -> & _ & Hp & _).
      destruct (Z.eqb_spec rc 0) as [->|Hrc]; cbn [negb] in H.
      * destruct (Hhost _ _ _ Hs) as (s & Hne & Hc).
        destruct (firstn len bs); [discriminate|].
        discriminate Hp. discriminate.
      * destruct (print_to_string NULL len (Some (lit "%s %d"))
                    [AStr (lit "unknown error"); AInt err]
                    (overwrite (firstn len bs) m)) as [[n m2]| |] eqn:E;
          try discriminate.
        cbn [bind] in H.
        destruct (Z.leb_spec 0 n); [|discriminate].
        revert E. unfold print_to_string. intros E.
        do 2 apply assert_pure_Ret in E.
        destruct (vsnprintf NULL len _ _ _) as [[num m3]| |] eqn:V;
          try discriminate.
        cbn [bind] in E. destruct (num <? 0); [injection E as <- _; lia|].
        apply vsnprintf_Ret in V as (f & t & _ & _ & _ & Hq & _).
        destruct len as [|len].
        -- cbn in E. discriminate.
        -- discriminate Hq. cbn. destruct (firstn len t); discriminate.
    + destruct (G _ _ _ _ _ _ H) as [->| ->]; discriminate.
  - intros err len m Hlen Hne.
    destruct (strerror_r_improved_returns err len m Hlen Hne) as (r & m' & E).
    exists r, m'. split; [assumption|].
    destruct (G _ _ _ _ _ _ E) as [->| ->]; discriminate.
Qed.

(** C6.  On a host whose successful calls leave a non-empty string, for
    every [int] error code and every [len] of at least the length of
    ["unknown error <code>"] plus one (in storage of at least [len] bytes),
    [strerror_r_improved] returns and the string it returns is not
    empty. *)
Theorem strerror_r_improved_nonempty (err : Z) (len : nat) (m : mem) :
  describes_nonempty P ->
  INT_MIN <= err <= INT_MAX ->
  (length (lit "unknown error " ++ decimal err) + 1 <= len)%nat ->
  (len <= length m)%nat ->
  exists r m' s,
    strerror_r_improved err Str len m = Ret (r, m') /\
    string_at r m' = Some s /\
    s <> [].
Proof.
  intros Hhost Herr Hcap Hlen. unfold strerror_r_improved.
  rewrite strerror_r_valid by assumption. cbn [bind].
  destruct (sys_strerror err len) as [rc bs] eqn:Hs. cbn [fst snd].
  destruct (Z.eqb_spec rc 0) as [->|Hrc]; cbn [negb bind].
  - destruct (Hhost _ _ _ Hs) as (s & Hne & Hc).
    exists (Ptr Str), (overwrite (firstn len bs) m), s.
    split; [reflexivity|]. split; [|assumption].
    cbn [string_at]. unfold overwrite. apply c_str_app. assumption.
  - set (m1 := overwrite (firstn len bs) m).
    assert (Hm1 : length m1 = length m).
    { apply length_overwrite. rewrite length_firstn. lia. }
    set (t := lit "unknown error " ++ decimal err) in *.
    assert (Ht : Z.of_nat (length t) <= INT_MAX).
    { unfold t. rewrite length_app.
      pose proof (length_decimal_int err Herr). unfold INT_MAX. simpl length. lia. }
    rewrite (print_to_string_stores len _ _ t m1 (render_unknown err) Ht)
      by lia.
    cbn [bind]. destruct (Z.leb_spec 0 (Z.of_nat (length t))); [|lia].
    eexists _, _, _. split; [reflexivity|].
    cbn [string_at]. rewrite c_str_terminated. split; [reflexivity|].
    unfold t. cbn. discriminate.
Qed.

End Describe.

(** The sample host leaves a non-empty string whenever it reports
    success. *)
Lemma sys_errlist_nonempty :
  Forall (fun e => until_nul (snd e) = snd e /\ snd e <> []) sys_errlist.
Proof. repeat constructor; discriminate. Qed.

Lemma xsi_strerror_nonempty (ndebug : bool) :
  describes_nonempty
    {| NDEBUG := ndebug; sys_strerror := xsi_strerror; sys_localtime := gmtime |}.
Proof.
  intros err len bs. cbn [sys_strerror]. unfold xsi_strerror, errlist.
  destruct (find (fun e => fst e =? err) sys_errlist) as [e|] eqn:F;
    cbn [option_map negb]; [|discriminate].
  apply find_some in F as [Hin _].
  pose proof (proj1 (Forall_forall _ _) sys_errlist_nonempty e Hin) as [Hu Hne].
  destruct (Nat.leb_spec len (length (snd e))); [discriminate|].
  intros [= <-]. destruct len as [|n]; [lia|].
  exists (snd e). split; [assumption|].
  rewrite (firstn_all2 (snd e)) by lia.
  rewrite firstn_all2 by (rewrite length_app; simpl; lia).
  change (snd e ++ [NUL]) with (snd e ++ NUL :: []).
  rewrite c_str_terminated, Hu. reflexivity.
Qed.

(** C5 at work: code 9999 has no message on the sample host, the
    synthesis succeeds. *)
Lemma strerror_r_improved_pointer_witness :
  @strerror_r_improved linux_utc 9999 Str 32 (repeat "X"%char 32) =
    Ret (Ptr Str, lit "unknown error 9999" ++ NUL :: repeat "X"%char 13).
Proof.
  apply (proj1 (proj2 (proj1 (@strerror_r_improved_pointer linux_utc)
           9999 Str 32%nat (repeat "X"%char 32) EINVAL
           (lit "Unknown error 9999" ++ NUL :: repeat "X"%char 13) eq_refl))
           18 (lit "unknown error 9999" ++ NUL :: repeat "X"%char 13)).
  - discriminate.
  - reflexivity.
  - lia.
Defined.

Lemma strerror_r_improved_nonempty_witness :
  exists r m' s,
    @strerror_r_improved linux_utc 2 Str 32 (repeat "X"%char 32) = Ret (r, m') /\
    string_at r m' = Some s /\ s <> [].
Proof.
  apply (@strerror_r_improved_nonempty linux_utc 2 32%nat (repeat "X"%char 32)).
  - apply xsi_strerror_nonempty.
  - unfold INT_MIN, INT_MAX; lia.
  - simpl; lia.
  - simpl; lia.
Defined.

Lemma strerror_r_improved_not_null_witness :
  Ptr Str <> Ptr NULL /\
  (Ptr Str = Ptr Str \/ Ptr Str = Lit (lit "unknown error")).
Proof.
  apply (proj1 (@strerror_r_improved_not_null linux_utc) 2 Str 32%nat
           (repeat "X"%char 32) (Ptr Str)
           (lit "No such file or directory" ++ NUL :: repeat "X"%char 6)).
  - discriminate.
  - reflexivity.
Defined.

(** ** [humanized_timestamp] *)

Lemma forall_upto_spec (n : nat) (p : Z -> bool) (lo : Z) :
  forall_upto n p lo = true ->
  forall z, lo <= z < lo + Z.of_nat n -> p z = true.
Proof.
  revert lo; induction n as [|n IH]; intros lo H z Hz; [lia|].
  cbn [forall_upto] in H. destruct (p lo) eqn:H0; [|discriminate].
  destruct (Z.eq_dec z lo) as [->|Hne]; [assumption|].
  apply (IH (lo + 1) H). lia.
Qed.

Lemma matches_app (k1 k2 : list char_class) (s1 s2 : text) :
  matches k1 s1 = true -> matches k2 s2 = true ->
  matches (k1 ++ k2) (s1 ++ s2) = true.
Proof.
  revert s1; induction k1 as [|k k1 IH]; intros [|c s1]; simpl;
    try discriminate; [auto|].
  intros H1 H2. apply andb_true_iff in H1 as [Hc H1].
  rewrite Hc. simpl. auto.
Qed.

(** A text that matches a layout without terminators has the length of the
    layout and reads back as itself. *)
Lemma matches_text (ks : list char_class) (s : text) :
  forallb (fun k => negb (in_class k NUL)) ks = true ->
  matches ks s = true ->
  length s = length ks /\ until_nul s = s.
Proof.
  revert s; induction ks as [|k ks IH]; intros [|c s]; simpl;
    try discriminate; [auto|].
  intros Hk Hm. apply andb_true_iff in Hk as [Hk Hks].
  apply andb_true_iff in Hm as [Hc Hm].
  destruct (IH s Hks Hm) as [Hl Hu]. rewrite Hl, Hu.
  destruct (Ascii.eqb_spec c NUL) as [->|_]; [|auto].
  rewrite Hc in Hk. discriminate.
Qed.

Lemma wday_abbr_layout (d : Z) :
  0 <= d <= 6 -> matches [Upper; Lower; Lower] (wday_abbr d) = true.
Proof.
  intros H.
  apply (forall_upto_spec 7 (fun d => matches [Upper; Lower; Lower] (wday_abbr d)) 0);
    [reflexivity | lia].
Qed.

Lemma mon_abbr_layout (k : Z) :
  0 <= k <= 11 -> matches [Upper; Lower; Lower] (mon_abbr k) = true.
Proof.
  intros H.
  apply (forall_upto_spec 12 (fun k => matches [Upper; Lower; Lower] (mon_abbr k)) 0);
    [reflexivity | lia].
Qed.

Lemma mday_layout (d : Z) :
  1 <= d <= 31 ->
  matches [DigitOrSpace; Digit] (pad_left " " 2 (decimal d)) = true.
Proof.
  intros H.
  apply (forall_upto_spec 31
           (fun d => matches [DigitOrSpace; Digit] (pad_left " " 2 (decimal d))) 1);
    [reflexivity | lia].
Qed.

Lemma two_digits_layout (n : Z) :
  0 <= n <= 60 -> matches [Digit; Digit] (pad_left "0" 2 (decimal n)) = true.
Proof.
  intros H.
  apply (forall_upto_spec 61
           (fun n => matches [Digit; Digit] (pad_left "0" 2 (decimal n))) 0);
    [reflexivity | lia].
Qed.

Lemma year_layout (y : Z) :
  1000 <= y <= 9999 -> matches [Digit; Digit; Digit; Digit] (decimal y) = true.
Proof.
  intros H.
  apply (forall_upto_spec (Z.to_nat 9000)
           (fun y => matches [Digit; Digit; Digit; Digit] (decimal y)) 1000);
    [vm_compute; reflexivity | lia].
Qed.

(** In the "C" locale [%c] gives [Www Mmm dd hh:mm:ss yyyy] for fields in
    range and a year of four digits. *)
Lemma date_and_time_layout (t : tm) :
  tm_in_range t -> four_digit_year t ->
  matches timestamp_layout (date_and_time t) = true.
Proof.
  intros (Hs & Hmi & Hh & Hd & Hmo & Hw) Hy.
  change timestamp_layout with
    ([Upper; Lower; Lower] ++ [Exactly " "] ++ [Upper; Lower; Lower] ++
     [Exactly " "] ++ [DigitOrSpace; Digit] ++ [Exactly " "] ++
     ([Digit; Digit] ++ [Exactly ":"] ++ [Digit; Digit] ++ [Exactly ":"] ++
      [Digit; Digit]) ++ [Exactly " "] ++ [Digit; Digit; Digit; Digit]).
  unfold date_and_time, hms.
  repeat apply matches_app;
    auto using wday_abbr_layout, mon_abbr_layout, mday_layout, year_layout;
    try (apply two_digits_layout; lia).
Qed.

Lemma date_and_time_text (t : tm) :
  tm_in_range t -> four_digit_year t ->
  length (date_and_time t) = 24%nat /\
  until_nul (date_and_time t) = date_and_time t.
Proof.
  intros Hr Hy.
  apply (matches_text timestamp_layout); [reflexivity|].
  apply date_and_time_layout; assumption.
Qed.

Lemma expand_c (t : tm) : expand (lit "%c") t = Some (date_and_time t).
Proof. cbn. rewrite app_nil_r. reflexivity. Qed.

Section Timestamp.

Context {P : Platform}.

(** The rendering does not fit in [len] bytes, or the conversion fails:
    the literal, and the storage is left alone. *)
Lemma humanized_timestamp_error (clock : Z) (str : ptr) (len : nat) (m : mem) :
  match sys_localtime clock with
  | None => True
  | Some t => (len <= length (date_and_time t))%nat
  end ->
  humanized_timestamp clock str len m = Ret (Lit (lit "error"), m).
Proof.
  unfold humanized_timestamp, localtime_r.
  destruct (sys_localtime clock) as [t|]; [|reflexivity].
  intros H. unfold strftime. rewrite expand_c.
  destruct (Nat.leb_spec (length (date_and_time t) + 1) len); [lia|].
  reflexivity.
Qed.

(** The rendering fits: it is stored with its terminator and [str] is
    returned. *)
Lemma humanized_timestamp_stores (clock : Z) (len : nat) (m : mem) (t : tm) :
  sys_localtime clock = Some t ->
  date_and_time t <> [] ->
  until_nul (date_and_time t) = date_and_time t ->
  (length (date_and_time t) < len)%nat ->
  (len <= length m)%nat ->
  humanized_timestamp clock Str len m =
    Ret (Ptr Str,
         date_and_time t ++ NUL :: skipn (length (date_and_time t) + 1) m).
Proof.
  intros Hlt Hne Hu Hfit Hlen. unfold humanized_timestamp, localtime_r.
  rewrite Hlt. unfold strftime. rewrite expand_c.
  set (s := date_and_time t) in *.
  destruct (Nat.leb_spec (length s + 1) len); [|lia].
  rewrite store_bytes_fits by (rewrite length_app; simpl; lia).
  cbn [bind].
  destruct (Nat.eqb_spec 0 (length s)) as [E|_].
  { destruct s; [congruence|discriminate]. }
  unfold overwrite. rewrite <- app_assoc, length_app. simpl app. simpl length.
  unfold assert, strlen. rewrite c_str_terminated, Hu. cbn [bind].
  rewrite Nat.eqb_refl. destruct NDEBUG; reflexivity.
Qed.

(** C7, amended.  When the conversion to local time succeeds with fields
    in range and a year of four digits, and [len >= 25] (in storage of at
    least [len] bytes), [humanized_timestamp] returns [str] and the buffer
    holds a non-empty string of the layout [Www Mmm dd hh:mm:ss yyyy].  It
    returns the literal ["error"] when the conversion fails, and when the
    rendering with its terminator does not fit in [len] bytes, which for
    such a time means [len < 25]. *)
Theorem humanized_timestamp_layout :
  (forall clock len m t,
     sys_localtime clock = Some t -> tm_in_range t -> four_digit_year t ->
     (25 <= len)%nat -> (len <= length m)%nat ->
     exists m' s,
       humanized_timestamp clock Str len m = Ret (Ptr Str, m') /\
       string_at (Ptr Str) m' = Some s /\
       s <> [] /\
       matches timestamp_layout s = true) /\
  (forall clock str len m,
     sys_localtime clock = None ->
     humanized_timestamp clock str len m = Ret (Lit (lit "error"), m)) /\
  (forall clock str len m t,
     sys_localtime clock = Some t ->
     (len <= length (date_and_time t))%nat ->
     exists m', humanized_timestamp clock str len m = Ret (Lit (lit "error"), m')) /\
  (forall clock str len m t,
     sys_localtime clock = Some t -> tm_in_range t -> four_digit_year t ->
     (len < 25)%nat ->
     exists m', humanized_timestamp clock str len m = Ret (Lit (lit "error"), m')).
Proof.
  repeat split.
  - intros clock len m t Hlt Hr Hy Hcap Hlen.
    destruct (date_and_time_text t Hr Hy) as [Hl Hu].
    assert (Hne : date_and_time t <> []).
    { intros E. rewrite E in Hl. discriminate. }
    rewrite (humanized_timestamp_stores clock len m t Hlt Hne Hu) by lia.
    eexists _, (date_and_time t). split; [reflexivity|].
    cbn [string_at]. rewrite c_str_terminated, Hu.
    auto using date_and_time_layout.
  - intros clock str len m Hlt. apply humanized_timestamp_error.
    rewrite Hlt. exact I.
  - intros clock str len m t Hlt Hlen. exists m.
    apply humanized_timestamp_error. rewrite Hlt. assumption.
  - intros clock str len m t Hlt Hr Hy Hlen. exists m.
    apply humanized_timestamp_error.
    rewrite Hlt. destruct (date_and_time_text t Hr Hy) as [Hl _]. lia.
Qed.

End Timestamp.

(** C7 at work: 17 February 2020, 13:22:05 UTC, in a buffer of 25 bytes. *)
Lemma humanized_timestamp_layout_witness :
  exists m' s,
    @humanized_timestamp linux_utc 1581945725 Str 25 (repeat "X"%char 25) =
      Ret (Ptr Str, m') /\
    string_at (Ptr Str) m' = Some s /\ s <> [] /\
    matches timestamp_layout s = true.
Proof.
  apply (proj1 (@humanized_timestamp_layout linux_utc) 1581945725 25%nat
           (repeat "X"%char 25)
           {| tm_sec := 5; tm_min := 22; tm_hour := 13; tm_mday := 17;
              tm_mon := 1; tm_year := 120; tm_wday := 1; tm_yday := 47;
              tm_isdst := 0 |}).
  - reflexivity.
  - unfold tm_in_range; simpl; lia.
  - unfold four_digit_year; simpl; lia.
  - lia.
  - simpl; lia.
Defined.

(** C7 as stated fails: in the year 10000 the rendering has 25 characters
    and a buffer of 25 bytes is too small, although the conversion to
    local time succeeds. *)
Lemma humanized_timestamp_layout_counterexample :
  sys_localtime (Platform := linux_utc) 253402300800 <> None /\
  ~ (exists m',
       @humanized_timestamp linux_utc 253402300800 Str 25 (repeat "X"%char 25) =
         Ret (Ptr Str, m')).
Proof.
  split; [discriminate|].
  intros (m' & E). vm_compute in E. discriminate.
Qed.

(** ** Calling twice *)

(** A call whose effect is one store at the start of the storage, the same
    for every storage of that size, can be repeated. *)
Lemma prefix_store_repeatable {A : Type} (f : mem -> outcome (A * mem)) :
  (forall m r m',
     f m = Ret (r, m') ->
     exists c, m' = overwrite c m /\ (length c <= length m)%nat /\
               forall m0, length m0 = length m -> f m0 = Ret (r, overwrite c m0)) ->
  repeatable f /\ content_blind f.
Proof.
  intros H. split.
  - intros m r m' E. destruct (H m r m' E) as (c & -> & Hl & Hsame).
    rewrite Hsame by (apply length_overwrite; assumption).
    rewrite overwrite_idem. reflexivity.
  - intros m r m' m0 E El. destruct (H m r m' E) as (c & _ & _ & Hsame).
    eauto.
Qed.

Section Twice.

Context {P : Platform}.

Lemma strerror_r_improved_Ret (err : Z) (str : ptr) (len : nat) (m : mem)
    (r : cptr) (m' : mem) :
  strerror_r_improved err str len m = Ret (r, m') ->
  exists c,
    m' = overwrite c m /\ (length c <= length m)%nat /\
    (forall m0, length m0 = length m ->
       strerror_r_improved err str len m0 = Ret (r, overwrite c m0)).
Proof.
  unfold strerror_r_improved.
  destruct (strerror_r err str len m) as [[rc m1]| |] eqn:S; try discriminate.
  cbn [bind].
  apply strerror_r_Ret in S as (bs & Hs & -> & Hl & _ & Hsame).
  set (c1 := firstn len bs) in *.
  destruct (Z.eqb_spec rc 0) as [->|Hrc]; cbn [negb bind].
  - intros [= <- <-]. exists c1. repeat split; auto.
    intros m0 E. rewrite (Hsame m0 E). cbn [bind]. reflexivity.
  - destruct (print_to_string str len _ _ (overwrite c1 m)) as [[n m2]| |] eqn:T;
      try discriminate.
    cbn [bind]. intros [= <- <-].
    apply print_to_string_Ret in T as (c2 & -> & Hl2 & Hsame2).
    rewrite length_overwrite in Hl2, Hsame2 by assumption.
    rewrite overwrite_overwrite.
    exists (c2 ++ skipn (length c2) c1). split; [reflexivity|]. split.
    + rewrite length_app, length_skipn. lia.
    + intros m0 E. rewrite (Hsame m0 E). cbn [bind].
      destruct (Z.eqb_spec rc 0); [contradiction|]. cbn [negb].
      rewrite Hsame2 by (rewrite length_overwrite; lia).
      cbn [bind]. rewrite overwrite_overwrite. reflexivity.
Qed.

Lemma humanized_timestamp_Ret (clock : Z) (str : ptr) (len : nat) (m : mem)
    (r : cptr) (m' : mem) :
  humanized_timestamp clock str len m = Ret (r, m') ->
  exists c,
    m' = overwrite c m /\ (length c <= length m)%nat /\
    (forall m0, length m0 = length m ->
       humanized_timestamp clock str len m0 = Ret (r, overwrite c m0)).
Proof.
  unfold humanized_timestamp, localtime_r.
  destruct (sys_localtime clock) as [t|].
  2:{ intros [= <- <-]. exists []. split; [reflexivity|].
      split; [simpl; lia|]. intros; reflexivity. }
  unfold strftime. rewrite expand_c. set (s := date_and_time t).
  destruct (Nat.leb_spec (length s + 1) len).
  2:{ cbn [bind]. intros [= <- <-]. exists []. split; [reflexivity|].
      split; [simpl; lia|]. intros; reflexivity. }
  destruct (store_bytes str (s ++ [NUL]) m) as [m1| |] eqn:S; try discriminate.
  cbn [bind].
  pose proof (store_bytes_Ret _ _ _ _ S) as (-> & Hl & Hp).
  assert (str = Str) as -> by (apply Hp; destruct s; discriminate).
  assert (Hsame : forall m0, length m0 = length m ->
            store_bytes Str (s ++ [NUL]) m0 = Ret (overwrite (s ++ [NUL]) m0)).
  { intros m0 E. apply (store_bytes_same_size _ _ _ _ m0 S E). }
  assert (Hlen : forall m0, strlen Str (overwrite (s ++ [NUL]) m0) =
                            Ret (length (until_nul s))).
  { intros m0. unfold strlen, overwrite. rewrite <- app_assoc.
    simpl app. rewrite c_str_terminated. reflexivity. }
  destruct (Nat.eqb_spec 0 (length s)) as [E0|E0].
  - intros [= <- <-]. exists (s ++ [NUL]). repeat split; auto.
    intros m0 E. rewrite (Hsame m0 E). cbn [bind].
    destruct (Nat.eqb_spec 0 (length s)); [reflexivity|contradiction].
  - unfold assert. rewrite Hlen.
    destruct NDEBUG eqn:B; cbn [bind].
    + intros [= <- <-]. exists (s ++ [NUL]). repeat split; auto.
      intros m0 E. rewrite (Hsame m0 E). cbn [bind].
      destruct (Nat.eqb_spec 0 (length s)); [contradiction|].
      reflexivity.
    + destruct (length (until_nul s) =? length s)%nat eqn:Q; try discriminate.
      cbn [bind]. intros [= <- <-]. exists (s ++ [NUL]). repeat split; auto.
      intros m0 E. rewrite (Hsame m0 E). cbn [bind].
      destruct (Nat.eqb_spec 0 (length s)); [contradiction|].
      rewrite Hlen. cbn [bind]. rewrite Q. reflexivity.
Qed.

(** C8.  Each helper can be called twice: the second call, with the same
    arguments (and the same clock reading) on the storage the first call
    left, returns the same value and leaves the same contents; and the
    value returned does not depend on what the storage held before. *)
Theorem helpers_deterministic :
  (forall str len fmt ap,
     repeatable (print_to_string str len fmt ap) /\
     content_blind (print_to_string str len fmt ap)) /\
  (forall err str len,
     repeatable (strerror_r_improved err str len) /\
     content_blind (strerror_r_improved err str len)) /\
  (forall clock str len,
     repeatable (humanized_timestamp clock str len) /\
     content_blind (humanized_timestamp clock str len)).
Proof.
  repeat apply conj; intros; apply prefix_store_repeatable; intros m r m' E.
  - apply print_to_string_Ret in E. exact E.
  - apply strerror_r_improved_Ret in E. exact E.
  - apply humanized_timestamp_Ret in E. exact E.
Qed.

End Twice.

(** C8 at work: the fallback path of [strerror_r_improved], twice. *)
Lemma helpers_deterministic_witness :
  @strerror_r_improved linux_utc 9999 Str 32
     (lit "unknown error 9999" ++ NUL :: repeat "X"%char 13) =
    Ret (Ptr Str, lit "unknown error 9999" ++ NUL :: repeat "X"%char 13).
Proof.
  apply (proj1 (proj1 (proj2 (@helpers_deterministic linux_utc)) 9999 Str 32%nat)
           (repeat "X"%char 32)).
  reflexivity.
Defined.

(** ** The model at work *)

Example decimal_examples :
  map decimal [0; 7; -7; 10; 12345; INT_MAX; INT_MIN] =
  map lit ["0"; "7"; "-7"; "10"; "12345"; "2147483647"; "-2147483648"]%string.
Proof. reflexivity. Qed.

Example render_examples :
  render (lit "%s=%d%% %c%lc") [AStr (lit "abc"); AInt (-42); AInt 65; AWide 66] =
    Rendered (lit "abc=-42% AB") /\
  render (lit "ab%lc!") [AWide 8364] = EncodingError (lit "ab") /\
  render (lit "%d") [] = BadCall.
Proof. repeat split. Qed.

Example gmtime_example :
  gmtime 1581945725 =
    Some {| tm_sec := 5; tm_min := 22; tm_hour := 13; tm_mday := 17;
            tm_mon := 1; tm_year := 120; tm_wday := 1; tm_yday := 47;
            tm_isdst := 0 |} /\
  option_map date_and_time (gmtime 951782400) =
    Some (lit "Tue Feb 29 00:00:00 2000") /\
  gmtime (2 ^ 62) = None.
Proof. repeat split. Qed.


(** * Further properties of the helpers *)

(** ** Bounds of the stores *)

Lemma overwrite_frame (c : list ascii) (n : nat) (m : mem) :
  (length c <= n)%nat -> skipn n (overwrite c m) = skipn n m.
Proof.
  intros H. unfold overwrite.
  rewrite skipn_app, skipn_skipn, skipn_all2 by assumption.
  simpl. f_equal. lia.
Qed.

Section WrapperMore.

Context {P : Platform}.

(** The engine fails on a non-null buffer: -1, and what it stored stays. *)
Lemma print_to_string_engine_fails (len : nat) (f : text) (ap : list arg)
    (t : text) (m : mem) :
  render f ap = EncodingError t \/
  (render f ap = Rendered t /\ INT_MAX < Z.of_nat (length t)) ->
  (len <= length m)%nat ->
  print_to_string Str len (Some f) ap m = Ret (-1, overwrite (emitted len t) m).
Proof.
  intros H Hlen. pose proof (length_emitted len t).
  unfold print_to_string. rewrite !assert_holds by reflexivity. cbn [bind].
  unfold vsnprintf.
  destruct H as [-> | [-> Hbig]]; rewrite store_bytes_fits by lia; cbn [bind].
  - reflexivity.
  - destruct (Z.ltb_spec INT_MAX (Z.of_nat (length t))); [reflexivity|lia].
Qed.

(** X1.  With a non-null buffer that has a first byte and at least [len]
    bytes of storage, and a template the engine accepts, [print_to_string]
    returns: no assertion fails and no access is out of bounds, in either
    build. *)
Theorem print_to_string_returns (len : nat) (f : text) (ap : list arg)
    (m : mem) :
  render f ap <> BadCall ->
  (len <= length m)%nat ->
  m <> [] ->
  exists r m', print_to_string Str len (Some f) ap m = Ret (r, m').
Proof.
  intros Hr Hlen Hne.
  destruct (render f ap) as [t|t|] eqn:R; [| |congruence].
  - destruct (Z.leb_spec (Z.of_nat (length t)) INT_MAX) as [Hi|Hi].
    + destruct (Nat.leb_spec len (length t)).
      * rewrite (print_to_string_cancels len f ap t m); eauto.
      * rewrite (print_to_string_stores len f ap t m); eauto.
    + rewrite (print_to_string_engine_fails len f ap t m); eauto.
  - rewrite (print_to_string_engine_fails len f ap t m); eauto.
Qed.

(** X2.  Whatever the arguments, a result of [print_to_string] is -1 or a
    length smaller than [len], and in the latter case [str[result]] is the
    terminator. *)
Theorem print_to_string_result_range (str : ptr) (len : nat)
    (fmt : option text) (ap : list arg) (m : mem) (r : Z) (m' : mem) :
  print_to_string str len fmt ap m = Ret (r, m') ->
  r = -1 \/
  (0 <= r < Z.of_nat len /\ r <= INT_MAX /\
   nth_error m' (Z.to_nat r) = Some NUL).
Proof.
  unfold print_to_string. intros H. do 2 apply assert_pure_Ret in H.
  destruct (vsnprintf str len fmt ap m) as [[num m1]| |] eqn:V; try discriminate.
  cbn [bind] in H.
  apply vsnprintf_Ret in V as (f & t & -> & -> & Hl & Hp & _ & Hcase).
  destruct (Z.ltb_spec num 0); [injection H as <- _; auto|].
  destruct Hcase as [(R & Hi & ->)|[(_ & _ & ->)|(_ & ->)]]; try lia.
  rewrite to_size_t_small in H by lia. rewrite Nat2Z.id in H.
  destruct (Nat.leb_spec len (length t)).
  - destruct (store str 0 NUL _); try discriminate. injection H as <- _. auto.
  - rewrite emitted_fits in * by assumption.
    assert (str = Str) as -> by (apply Hp; destruct t; discriminate).
    rewrite length_app in Hl. simpl in Hl.
    rewrite assert_terminator in H by lia. injection H as <- <-.
    right. repeat split; try lia.
    rewrite Nat2Z.id. unfold overwrite. rewrite <- app_assoc.
    rewrite nth_error_app2 by lia. rewrite Nat.sub_diag. reflexivity.
Qed.

(** What a returning call stored is one run of bytes at the start of the
    storage, no longer than [len], or than one byte when [len] is 0. *)
Lemma print_to_string_prefix (str : ptr) (len : nat) (fmt : option text)
    (ap : list arg) (m : mem) (r : Z) (m' : mem) :
  print_to_string str len fmt ap m = Ret (r, m') ->
  exists c,
    m' = overwrite c m /\ (length c <= length m)%nat /\
    (length c <= Nat.max len 1)%nat.
Proof.
  unfold print_to_string. intros H. do 2 apply assert_pure_Ret in H.
  destruct (vsnprintf str len fmt ap m) as [[num m1]| |] eqn:V; try discriminate.
  cbn [bind] in H.
  apply vsnprintf_Ret in V as (f & t & -> & -> & Hl & _ & _ & _).
  pose proof (length_emitted len t) as He.
  destruct (num <? 0).
  { injection H as _ <-. exists (emitted len t). repeat split; lia. }
  destruct (len <=? to_size_t num)%nat.
  - destruct (store str 0 NUL _) as [m2| |] eqn:S; try discriminate.
    injection H as _ <-.
    apply store_head_Ret in S as (_ & Hne & ->).
    rewrite overwrite_overwrite.
    assert (0 < length m)%nat.
    { destruct m; [|simpl; lia].
      exfalso. apply Hne. unfold overwrite.
      destruct (emitted len t); [reflexivity|simpl in Hl; lia]. }
    exists ([NUL] ++ skipn (length [NUL]) (emitted len t)).
    rewrite length_app, length_skipn. simpl length.
    repeat split; lia.
  - destruct (assert _); try discriminate. injection H as _ <-.
    exists (emitted len t). repeat split; lia.
Qed.

(** X3.  [print_to_string] leaves the size of the storage and every byte
    from index [max len 1] on as they were: it stores within the first
    [len] bytes, or in the first byte. *)
Theorem print_to_string_frame (str : ptr) (len : nat) (fmt : option text)
    (ap : list arg) (m : mem) (r : Z) (m' : mem) :
  print_to_string str len fmt ap m = Ret (r, m') ->
  length m' = length m /\
  skipn (Nat.max len 1) m' = skipn (Nat.max len 1) m.
Proof.
  intros H. apply print_to_string_prefix in H as (c & -> & Hl & Hc).
  split.
  - apply length_overwrite. assumption.
  - apply overwrite_frame. assumption.
Qed.

(** With non-null arguments the assertions can be left out of
    [print_to_string]: they hold whenever they are reached. *)
Lemma print_to_string_assertions_hold (len : nat) (f : text) (ap : list arg)
    (m : mem) :
  print_to_string Str len (Some f) ap m =
    '(num, m1) <- vsnprintf Str len (Some f) ap m ;;
    if num <? 0 then Ret (-1, m1)
    else if (len <=? to_size_t num)%nat then
      m2 <- store Str 0 NUL m1 ;; Ret (-1, m2)
    else Ret (num, m1).
Proof.
  unfold print_to_string. rewrite !assert_holds by reflexivity. cbn [bind].
  destruct (vsnprintf Str len (Some f) ap m) as [[num m1]| |] eqn:V;
    try reflexivity.
  cbn [bind].
  apply vsnprintf_Ret in V as (f' & t & _ & -> & Hl & _ & _ & Hcase).
  destruct (Z.ltb_spec num 0); [reflexivity|].
  destruct Hcase as [(R & Hi & ->)|[(_ & _ & ->)|(_ & ->)]]; try lia.
  rewrite to_size_t_small by lia. rewrite Nat2Z.id.
  destruct (Nat.leb_spec len (length t)); [reflexivity|].
  rewrite emitted_fits in * by assumption.
  rewrite length_app in Hl. simpl in Hl.
  rewrite assert_terminator by lia. reflexivity.
Qed.

End WrapperMore.

(** X4.  With a non-null buffer and a non-null template the debug build
    and the release build of [print_to_string] have the same outcome on
    every input: none of the assertions of lines 14, 15 and 35 can fail. *)
Theorem print_to_string_build_independent (ndebug1 ndebug2 : bool)
    (se : Z -> nat -> Z * list ascii) (lt : Z -> option tm)
    (len : nat) (f : text) (ap : list arg) (m : mem) :
  @print_to_string
     {| NDEBUG := ndebug1; sys_strerror := se; sys_localtime := lt |}
     Str len (Some f) ap m =
  @print_to_string
     {| NDEBUG := ndebug2; sys_strerror := se; sys_localtime := lt |}
     Str len (Some f) ap m.
Proof.
  rewrite (@print_to_string_assertions_hold
             {| NDEBUG := ndebug1; sys_strerror := se; sys_localtime := lt |}).
  rewrite (@print_to_string_assertions_hold
             {| NDEBUG := ndebug2; sys_strerror := se; sys_localtime := lt |}).
  reflexivity.
Qed.


Lemma print_to_string_returns_witness :
  exists r m',
    @print_to_string linux_utc Str 4 (Some (lit "ab%lc")) [AWide 8364]
      (lit "XXXX") = Ret (r, m').
Proof.
  apply (@print_to_string_returns linux_utc 4 (lit "ab%lc") [AWide 8364]
           (lit "XXXX")).
  - discriminate.
  - simpl; lia.
  - discriminate.
Defined.

Lemma print_to_string_result_range_witness :
  5 = -1 \/
  (0 <= 5 < Z.of_nat 6 /\ 5 <= INT_MAX /\
   nth_error (lit "12345" ++ [NUL]) (Z.to_nat 5) = Some NUL).
Proof.
  apply (@print_to_string_result_range linux_utc Str 6 (Some (lit "%d"))
           [AInt 12345] (lit "XXXXXX") 5 (lit "12345" ++ [NUL])).
  reflexivity.
Defined.

Lemma print_to_string_frame_witness :
  length (NUL :: lit "2" ++ NUL :: lit "XXX") = 6%nat /\
  skipn (Nat.max 3 1) (NUL :: lit "2" ++ NUL :: lit "XXX") =
  skipn (Nat.max 3 1) (lit "XXXXXX").
Proof.
  apply (@print_to_string_frame linux_utc Str 3 (Some (lit "%d")) [AInt 12345]
           (lit "XXXXXX") (-1) (NUL :: lit "2" ++ NUL :: lit "XXX")).
  reflexivity.
Defined.

(** ** Texts without terminators *)

Lemma until_nul_free (s : text) : nul_free s = true -> until_nul s = s.
Proof.
  induction s as [|c s IH]; simpl; [reflexivity|].
  intros H. apply andb_true_iff in H as [Hc Hs].
  destruct (Ascii.eqb c NUL); [discriminate|]. rewrite IH by assumption.
  reflexivity.
Qed.

Lemma nul_free_app (s t : text) :
  nul_free s = true -> nul_free t = true -> nul_free (s ++ t) = true.
Proof.
  unfold nul_free. intros Hs Ht. rewrite forallb_app, Hs, Ht. reflexivity.
Qed.

Lemma digit_nul_free (d : Z) : 0 <= d < 10 -> nul_free [digit d] = true.
Proof.
  intros H.
  apply (forall_upto_spec 10 (fun d => nul_free [digit d]) 0);
    [reflexivity | lia].
Qed.

Lemma digits_nul_free (fuel : nat) (n : Z) :
  0 <= n -> nul_free (digits fuel n) = true.
Proof.
  revert n; induction fuel as [|fuel IH]; intros n Hn; [reflexivity|].
  cbn [digits]. destruct (Z.ltb_spec n 10).
  - apply digit_nul_free. lia.
  - apply nul_free_app.
    + apply IH. apply Z.div_pos; lia.
    + apply digit_nul_free. apply Z.mod_pos_bound. lia.
Qed.

Lemma decimal_nul_free (n : Z) : nul_free (decimal n) = true.
Proof.
  unfold decimal. apply nul_free_app.
  - destruct (n <? 0); reflexivity.
  - apply digits_nul_free. lia.
Qed.

Lemma pad_left_nul_free (c : ascii) (w : nat) (s : text) :
  Ascii.eqb c NUL = false -> nul_free s = true ->
  nul_free (pad_left c w s) = true.
Proof.
  intros Hc Hs. unfold pad_left. apply nul_free_app; [|assumption].
  induction (w - length s)%nat as [|k IH]; [reflexivity|].
  simpl. rewrite Hc. exact IH.
Qed.

Lemma wday_abbr_nul_free (d : Z) : nul_free (wday_abbr d) = true.
Proof.
  unfold wday_abbr.
  repeat match goal with
         | |- context [match ?x with _ => _ end] => destruct x
         end; reflexivity.
Qed.

Lemma mon_abbr_nul_free (k : Z) : nul_free (mon_abbr k) = true.
Proof.
  unfold mon_abbr.
  repeat match goal with
         | |- context [match ?x with _ => _ end] => destruct x
         end; reflexivity.
Qed.

(** The "C" locale puts no terminator into a date, whatever the fields. *)
Lemma date_and_time_nul_free (t : tm) : nul_free (date_and_time t) = true.
Proof.
  pose proof (wday_abbr_nul_free (tm_wday t)) as Hw.
  pose proof (mon_abbr_nul_free (tm_mon t)) as Hm.
  pose proof (pad_left_nul_free " " 2 _ eq_refl (decimal_nul_free (tm_mday t))) as Hd.
  pose proof (pad_left_nul_free "0" 2 _ eq_refl (decimal_nul_free (tm_hour t))) as Hh.
  pose proof (pad_left_nul_free "0" 2 _ eq_refl (decimal_nul_free (tm_min t))) as Hi.
  pose proof (pad_left_nul_free "0" 2 _ eq_refl (decimal_nul_free (tm_sec t))) as Hs.
  pose proof (decimal_nul_free (tm_year t + 1900)) as Hy.
  unfold date_and_time, hms. unfold nul_free in *.
  rewrite !forallb_app, Hw, Hm, Hd, Hh, Hi, Hs, Hy. reflexivity.
Qed.


(** ** [strerror_r_improved] after a failed host call *)

Section DescribeMore.

Context {P : Platform}.

(** X5.  When the host call fails, whatever its status and whatever it left
    in the buffer, and [len] exceeds the length of ["unknown error <code>"],
    [strerror_r_improved] returns [str] and the buffer holds exactly that
    text: the host's own text is not shown. *)
Theorem strerror_r_improved_synthesizes (err : Z) (len : nat) (m : mem)
    (rc : Z) (bs : list ascii) :
  sys_strerror err len = (rc, bs) ->
  rc <> 0 ->
  INT_MIN <= err <= INT_MAX ->
  (length (lit "unknown error " ++ decimal err) < len)%nat ->
  (len <= length m)%nat ->
  exists m',
    strerror_r_improved err Str len m = Ret (Ptr Str, m') /\
    c_str m' = Some (lit "unknown error " ++ decimal err).
Proof.
  intros Hs Hrc Herr Hcap Hlen. unfold strerror_r_improved.
  rewrite strerror_r_valid by assumption. rewrite Hs. cbn [bind fst snd].
  destruct (Z.eqb_spec rc 0); [contradiction|]. cbn [negb].
  set (t := lit "unknown error " ++ decimal err) in *.
  assert (Ht : Z.of_nat (length t) <= INT_MAX).
  { unfold t. rewrite length_app.
    pose proof (length_decimal_int err Herr). unfold INT_MAX. simpl length. lia. }
  rewrite (print_to_string_stores len _ _ t _ (render_unknown err) Ht Hcap)
    by (rewrite length_overwrite; rewrite ?length_firstn; lia).
  cbn [bind]. destruct (Z.leb_spec 0 (Z.of_nat (length t))); [|lia].
  eexists. split; [reflexivity|].
  rewrite c_str_terminated. f_equal. apply until_nul_free.
  unfold t. apply nul_free_app; [reflexivity | apply decimal_nul_free].
Qed.

(** X6.  When the host call fails and ["unknown error <code>"] does not fit
    in [len] bytes either, [strerror_r_improved] returns the literal
    ["unknown error"] and leaves the empty string in the buffer: what the
    host and the engine had stored there is cancelled. *)
Theorem strerror_r_improved_gives_up (err : Z) (len : nat) (m : mem)
    (rc : Z) (bs : list ascii) :
  sys_strerror err len = (rc, bs) ->
  rc <> 0 ->
  INT_MIN <= err <= INT_MAX ->
  (len <= length (lit "unknown error " ++ decimal err))%nat ->
  (len <= length m)%nat ->
  m <> [] ->
  exists m',
    strerror_r_improved err Str len m = Ret (Lit (lit "unknown error"), m') /\
    c_str m' = Some [].
Proof.
  intros Hs Hrc Herr Hcap Hlen Hne. unfold strerror_r_improved.
  rewrite strerror_r_valid by assumption. rewrite Hs. cbn [bind fst snd].
  destruct (Z.eqb_spec rc 0); [contradiction|]. cbn [negb].
  set (t := lit "unknown error " ++ decimal err) in *.
  assert (Ht : Z.of_nat (length t) <= INT_MAX).
  { unfold t. rewrite length_app.
    pose proof (length_decimal_int err Herr). unfold INT_MAX. simpl length. lia. }
  assert (Hm1 : length (overwrite (firstn len bs) m) = length m)
    by (apply length_overwrite; rewrite length_firstn; lia).
  rewrite (print_to_string_cancels len _ _ t _ (render_unknown err) Ht Hcap).
  - cbn [bind]. eexists. split; reflexivity.
  - lia.
  - intros E. rewrite E in Hm1. destruct m; [congruence|discriminate].
Qed.

(** X7.  [strerror_r_improved] leaves the size of the storage and every
    byte from index [max len 1] on as they were. *)
Theorem strerror_r_improved_frame (err : Z) (str : ptr) (len : nat) (m : mem)
    (r : cptr) (m' : mem) :
  strerror_r_improved err str len m = Ret (r, m') ->
  length m' = length m /\
  skipn (Nat.max len 1) m' = skipn (Nat.max len 1) m.
Proof.
  unfold strerror_r_improved.
  destruct (strerror_r err str len m) as [[rc m1]| |] eqn:S; try discriminate.
  cbn [bind].
  apply strerror_r_Ret in S as (bs & _ & -> & Hl & _ & _).
  assert (F : length (overwrite (firstn len bs) m) = length m /\
              skipn (Nat.max len 1) (overwrite (firstn len bs) m) =
              skipn (Nat.max len 1) m).
  { split; [apply length_overwrite; assumption|].
    apply overwrite_frame. rewrite length_firstn. lia. }
  destruct (negb (rc =? 0)).
  - destruct (print_to_string str len _ _ _) as [[n m2]| |] eqn:T;
      try discriminate.
    cbn [bind]. intros [= _ <-].
    apply print_to_string_prefix in T as (c & -> & Hc1 & Hc2).
    destruct F as [F1 F2]. rewrite F1 in Hc1. split.
    + rewrite length_overwrite; lia.
    + rewrite overwrite_frame; assumption.
  - cbn [bind]. intros [= _ <-]. exact F.
Qed.

End DescribeMore.

Lemma strerror_r_improved_synthesizes_witness :
  exists m',
    @strerror_r_improved linux_utc 2 Str 20 (repeat "X"%char 20) =
      Ret (Ptr Str, m') /\
    c_str m' = Some (lit "unknown error " ++ decimal 2).
Proof.
  apply (@strerror_r_improved_synthesizes linux_utc 2 20%nat (repeat "X"%char 20)
           ERANGE (lit "No such file or dir" ++ [NUL])).
  - reflexivity.
  - discriminate.
  - unfold INT_MIN, INT_MAX; lia.
  - simpl; lia.
  - simpl; lia.
Defined.

Lemma strerror_r_improved_gives_up_witness :
  exists m',
    @strerror_r_improved linux_utc 2 Str 10 (repeat "X"%char 10) =
      Ret (Lit (lit "unknown error"), m') /\
    c_str m' = Some [].
Proof.
  apply (@strerror_r_improved_gives_up linux_utc 2 10%nat (repeat "X"%char 10)
           ERANGE (lit "No such f" ++ [NUL])).
  - reflexivity.
  - discriminate.
  - unfold INT_MIN, INT_MAX; lia.
  - simpl; lia.
  - simpl; lia.
  - discriminate.
Defined.

Lemma strerror_r_improved_frame_witness :
  length (lit "unknown error 2" ++ NUL :: lit "dir" ++ NUL :: lit "YY") = 22%nat /\
  skipn (Nat.max 20 1) (lit "unknown error 2" ++ NUL :: lit "dir" ++ NUL :: lit "YY") =
  skipn (Nat.max 20 1) (repeat "X"%char 20 ++ lit "YY").
Proof.
  apply (@strerror_r_improved_frame linux_utc 2 Str 20
           (repeat "X"%char 20 ++ lit "YY") (Ptr Str)
           (lit "unknown error 2" ++ NUL :: lit "dir" ++ NUL :: lit "YY")).
  reflexivity.
Defined.

(** X8.  With a non-null buffer the debug build and the release build of
    [strerror_r_improved] have the same outcome on every input: the
    assertions it reaches through [print_to_string] cannot fail. *)
Theorem strerror_r_improved_build_independent (ndebug1 ndebug2 : bool)
    (se : Z -> nat -> Z * list ascii) (lt : Z -> option tm)
    (err : Z) (len : nat) (m : mem) :
  @strerror_r_improved
     {| NDEBUG := ndebug1; sys_strerror := se; sys_localtime := lt |}
     err Str len m =
  @strerror_r_improved
     {| NDEBUG := ndebug2; sys_strerror := se; sys_localtime := lt |}
     err Str len m.
Proof.
  unfold strerror_r_improved, strerror_r. cbn [sys_strerror].
  destruct (se err len) as [rc bs].
  destruct (store_bytes Str (firstn len bs) m) as [m1| |]; try reflexivity.
  cbn [bind]. destruct (negb (rc =? 0)); [|reflexivity].
  rewrite (@print_to_string_assertions_hold
             {| NDEBUG := ndebug1; sys_strerror := se; sys_localtime := lt |}).
  rewrite (@print_to_string_assertions_hold
             {| NDEBUG := ndebug2; sys_strerror := se; sys_localtime := lt |}).
  reflexivity.
Qed.

(** ** [humanized_timestamp] for every calendar time *)

Section TimestampMore.

Context {P : Platform}.


(** X10.  [humanized_timestamp] leaves the size of the storage and every
    byte from index [len] on as they were. *)
Theorem humanized_timestamp_frame (clock : Z) (str : ptr) (len : nat)
    (m : mem) (r : cptr) (m' : mem) :
  humanized_timestamp clock str len m = Ret (r, m') ->
  length m' = length m /\ skipn len m' = skipn len m.
Proof.
  unfold humanized_timestamp, localtime_r.
  destruct (sys_localtime clock) as [t|]; [|intros [= _ <-]; auto].
  unfold strftime. rewrite expand_c. set (s := date_and_time t).
  destruct (Nat.leb_spec (length s + 1) len); [|cbn [bind]; intros [= _ <-]; auto].
  destruct (store_bytes str (s ++ [NUL]) m) as [m1| |] eqn:S; try discriminate.
  cbn [bind]. apply store_bytes_Ret in S as (-> & Hl & _).
  assert (F : length (overwrite (s ++ [NUL]) m) = length m /\
              skipn len (overwrite (s ++ [NUL]) m) = skipn len m).
  { split; [apply length_overwrite; assumption|].
    apply overwrite_frame. rewrite length_app. simpl. lia. }
  destruct (0 =? length s)%nat; [intros [= _ <-]; exact F|].
  destruct (assert _); try discriminate. cbn [bind]. intros [= _ <-]. exact F.
Qed.

End TimestampMore.

(** X11.  The debug build and the release build of [humanized_timestamp]
    have the same outcome on every input: the assertion of line 71 cannot
    fail. *)
Theorem humanized_timestamp_build_independent (ndebug1 ndebug2 : bool)
    (se : Z -> nat -> Z * list ascii) (lt : Z -> option tm)
    (clock : Z) (str : ptr) (len : nat) (m : mem) :
  @humanized_timestamp
     {| NDEBUG := ndebug1; sys_strerror := se; sys_localtime := lt |}
     clock str len m =
  @humanized_timestamp
     {| NDEBUG := ndebug2; sys_strerror := se; sys_localtime := lt |}
     clock str len m.
Proof.
  unfold humanized_timestamp, localtime_r. cbn [sys_localtime].
  destruct (lt clock) as [t|]; [|reflexivity].
  unfold strftime. rewrite expand_c. set (s := date_and_time t).
  destruct (length s + 1 <=? len)%nat; [|reflexivity].
  destruct (store_bytes str (s ++ [NUL]) m) as [m1| |] eqn:S; try reflexivity.
  cbn [bind]. destruct (0 =? length s)%nat; [reflexivity|].
  pose proof (store_bytes_Ret _ _ _ _ S) as (-> & _ & Hp).
  assert (str = Str) as -> by (apply Hp; destruct s; discriminate).
  unfold assert, strlen, overwrite. cbn [NDEBUG].
  rewrite <- app_assoc. simpl app. rewrite c_str_terminated.
  unfold s. rewrite (until_nul_free _ (date_and_time_nul_free t)).
  cbn [bind]. rewrite Nat.eqb_refl.
  destruct ndebug1, ndebug2; reflexivity.
Qed.


Lemma humanized_timestamp_frame_witness :
  length (lit "Mon Feb 17 13:22:05 2020" ++ NUL :: lit "YY") = 27%nat /\
  skipn 25 (lit "Mon Feb 17 13:22:05 2020" ++ NUL :: lit "YY") =
  skipn 25 (repeat "X"%char 25 ++ lit "YY").
Proof.
  apply (@humanized_timestamp_frame linux_utc 1581945725 Str 25
           (repeat "X"%char 25 ++ lit "YY") (Ptr Str)
           (lit "Mon Feb 17 13:22:05 2020" ++ NUL :: lit "YY")).
  reflexivity.
Defined.

(** ** The macros of base.h *)

Lemma ARRAYSIZE_guard (S E : Z) :
  0 < E ->
  (S mod E = 0 -> ARRAYSIZE S E = Some (S / E)) /\
  (S mod E <> 0 -> ARRAYSIZE S E = None).
Proof.
  intros HE. unfold ARRAYSIZE, size_div, size_mod, size_not.
  destruct (Z.eqb_spec E 0); [lia|].
  destruct (Z.eqb_spec (S mod E) 0) as [Hz|Hz]; split; intros H;
    try contradiction; cbn.
  - rewrite Z.div_1_r. reflexivity.
  - reflexivity.
Qed.

Lemma ARRAYSIZE_array (n E : Z) :
  0 < E -> ARRAYSIZE (n * E) E = Some n.
Proof.
  intros HE. destruct (ARRAYSIZE_guard (n * E) E HE) as [H _].
  rewrite H by (apply Z.mod_mul; lia). rewrite Z.div_mul by lia. reflexivity.
Qed.

(** X12.  For an array of [n] elements of [E > 0] bytes [ARRAYSIZE] is
    [n].  In general its value is the quotient of the two sizes when the
    size of the element divides the size of the argument, and there is none
    (a division by zero) otherwise: that is all the check for a non-array
    argument amounts to. *)
Theorem ARRAYSIZE_counts :
  (forall n E, 0 < E -> 0 <= n -> ARRAYSIZE (n * E) E = Some n) /\
  (forall S E, 0 < E -> 0 <= S ->
     (S mod E = 0 -> ARRAYSIZE S E = Some (S / E)) /\
     (S mod E <> 0 -> ARRAYSIZE S E = None)).
Proof.
  split.
  - intros n E HE _. apply ARRAYSIZE_array. assumption.
  - intros S E HE _. apply ARRAYSIZE_guard. assumption.
Qed.

(** X13.  For an array of [n] elements of [E > 0] bytes at address [arr],
    [ARRAYEND] is the address just past the array, and a pointer stepping
    from [arr] by whole elements equals it after exactly [n] steps. *)
Theorem ARRAYEND_one_past (arr n E : Z) :
  0 < E -> 0 <= n ->
  ARRAYEND arr (n * E) E = Some (arr + n * E) /\
  (forall k, ARRAYEND arr (n * E) E = Some (arr + k * E) <-> k = n).
Proof.
  intros HE Hn. unfold ARRAYEND. rewrite (ARRAYSIZE_array n E HE).
  split; [reflexivity|].
  intros k. split.
  - intros [= H]. nia.
  - intros ->. reflexivity.
Qed.

(** X14.  On two operands of one type, [int] or [unsigned int], [MIN] and
    [MAX] give the smaller and the larger value, in that type. *)
Theorem MIN_MAX_same_type (t : ctype) (a b : Z) :
  in_type t a -> in_type t b ->
  MIN {| c_type := t; c_val := a |} {| c_type := t; c_val := b |} =
    {| c_type := t; c_val := Z.min a b |} /\
  MAX {| c_type := t; c_val := a |} {| c_type := t; c_val := b |} =
    {| c_type := t; c_val := Z.max a b |}.
Proof.
  intros Ha Hb. unfold MIN, MAX. cbn [c_type c_val].
  destruct t; cbn [common_type convert in_type] in *.
  - destruct (Z.ltb_spec a b), (Z.gtb_spec a b); split; f_equal; lia.
  - unfold UINT_MAX in *. rewrite !Z.mod_small by lia.
    destruct (Z.ltb_spec a b), (Z.gtb_spec a b); split; f_equal; lia.
Qed.

(** X15.  On a negative [int] and an [unsigned int] the comparison is made
    after converting the [int]: [MIN] never gives the negative operand.
    Its value is the smaller of [a + UINT_MAX + 1] and [b], and for
    [b <= INT_MAX] [MIN] gives [b] and [MAX] gives [a + UINT_MAX + 1]. *)
Theorem MIN_MAX_mixed_signedness (a b : Z) :
  INT_MIN <= a < 0 -> 0 <= b <= UINT_MAX ->
  let r := MIN {| c_type := TInt; c_val := a |}
               {| c_type := TUInt; c_val := b |} in
  c_type r = TUInt /\
  c_val r = Z.min (a + UINT_MAX + 1) b /\
  a < c_val r /\
  (b <= INT_MAX ->
     c_val r = b /\
     MAX {| c_type := TInt; c_val := a |} {| c_type := TUInt; c_val := b |} =
       {| c_type := TUInt; c_val := a + UINT_MAX + 1 |}).
Proof.
  intros Ha Hb.
  unfold MIN, MAX. cbn [c_type c_val common_type convert].
  unfold INT_MIN, INT_MAX, UINT_MAX in *.
  assert (Ea : a mod (4294967295 + 1) = a + 4294967295 + 1).
  { symmetry. apply (Z.mod_unique a _ (-1)); lia. }
  rewrite Ea, (Z.mod_small b) by lia.
  destruct (Z.ltb_spec (a + 4294967295 + 1) b); cbn [c_type c_val];
    (split; [reflexivity|]); (split; [lia|]); (split; [lia|]);
    intros Hi; (split; [lia|]);
    destruct (Z.gtb_spec (a + 4294967295 + 1) b); try reflexivity; lia.
Qed.

Lemma ARRAYSIZE_counts_witness : ARRAYSIZE (10 * 4) 4 = Some 10.
Proof.
  apply (proj1 ARRAYSIZE_counts 10 4); lia.
Defined.

Lemma ARRAYEND_one_past_witness :
  ARRAYEND 4096 (10 * 4) 4 = Some (4096 + 10 * 4) /\
  (forall k, ARRAYEND 4096 (10 * 4) 4 = Some (4096 + k * 4) <-> k = 10).
Proof.
  apply (ARRAYEND_one_past 4096 10 4); lia.
Defined.

Lemma MIN_MAX_same_type_witness :
  MIN {| c_type := TInt; c_val := -3 |} {| c_type := TInt; c_val := 5 |} =
    {| c_type := TInt; c_val := Z.min (-3) 5 |} /\
  MAX {| c_type := TInt; c_val := -3 |} {| c_type := TInt; c_val := 5 |} =
    {| c_type := TInt; c_val := Z.max (-3) 5 |}.
Proof.
  apply (MIN_MAX_same_type TInt (-3) 5); unfold in_type, INT_MIN, INT_MAX; lia.
Defined.

Lemma MIN_MAX_mixed_signedness_witness :
  let r := MIN {| c_type := TInt; c_val := -1 |}
               {| c_type := TUInt; c_val := 1 |} in
  c_type r = TUInt /\
  c_val r = Z.min (-1 + UINT_MAX + 1) 1 /\
  -1 < c_val r /\
  (1 <= INT_MAX ->
     c_val r = 1 /\
     MAX {| c_type := TInt; c_val := -1 |} {| c_type := TUInt; c_val := 1 |} =
       {| c_type := TUInt; c_val := -1 + UINT_MAX + 1 |}).
Proof.
  apply (MIN_MAX_mixed_signedness (-1) 1); unfold INT_MIN, UINT_MAX; lia.
Defined.
